(** * recognition/dataset.py: the preprocessing transforms

    A shallow embedding of the four sample transforms of
    [recognition/dataset.py] ([Rescale], [ToTensor], [Normalise],
    [ClipAndRescale]) and of their composition [get_transform].

    Conventions.
    - A call that can raise is a function into [result]; the exception
      classes are the constructors of [exn].
    - A tensor is its shape and its elements in row-major order, the way a
      contiguous torch tensor is stored.
    - A float is a [num]: an exact rational, or one of the IEEE special
      values [+inf], [-inf], [nan].  Rounding, overflow and the sign of zero
      are not represented; division by zero, [inf - inf] and the propagation
      of [nan] are.
    - The calls are first given as functions of the values they receive;
      the section on the object store gives them again with references, to
      account for the one statement that writes in place.
    - The routines of the libraries are given by what they do on the data
      used here: [to_tensor], [squeeze], [clamp], [expand_as], boolean
      indexing and [Image.NEAREST] are defined; the square root and PIL's
      bilinear resampling are parameters.
    - [ISICDataset] reads a file system that is given as data: the names
      each directory lists and the picture each image file holds. *)

From Stdlib Require Import QArith Qcanon Strings.Byte Strings.Ascii.
From stdpp Require Import base numbers list strings gmap sorting.

Local Open Scope Qc_scope.

(** ** Exceptions and results *)

Inductive exn : Type :=
  | NameError (name : string)
  | IndexError
  | RuntimeError
  | TypeError
  | ValueError
  | AssertionError
  (* the error classes named by the specification *)
  | InvalidGeometryError
  | ShapeMismatchError
  | DegenerateStatisticsError
  | InvalidRangeError.

Inductive result (A : Type) : Type :=
  | Ok (a : A)
  | Raise (e : exn).
Arguments Ok {A} a.
Arguments Raise {A} e.

Global Instance result_ret : MRet result := λ A a, Ok a.
Global Instance result_bind : MBind result := λ A B f r,
  match r with
  | Ok a => f a
  | Raise e => Raise e
  end.

Global Instance exn_eq_dec : EqDecision exn.
Proof. solve_decision. Defined.

(** ** Samples

    A sample is the dict [{'image': ..., 'mask': ...}]; both entries are PIL
    images before tensorization and tensors after it. *)

Record Sample (A : Type) : Type := mkSample {
  image : A;
  mask : A
}.
Arguments mkSample {A} image mask.
Arguments image {A} s.
Arguments mask {A} s.

Global Instance sample_eq_dec `{EqDecision A} : EqDecision (Sample A).
Proof. solve_decision. Defined.

(** ** Floats *)

Inductive num : Type :=
  | Fin (q : Qc)
  | PInf
  | NInf
  | NaN.

Global Instance num_eq_dec : EqDecision num.
Proof. solve_decision. Defined.

Global Instance result_eq_dec `{EqDecision A} : EqDecision (result A).
Proof. solve_decision. Defined.

Definition inf_of_sign (negative : bool) : num :=
  if negative then NInf else PInf.

Definition num_opp (x : num) : num :=
  match x with
  | Fin a => Fin (- a)
  | PInf => NInf
  | NInf => PInf
  | NaN => NaN
  end.

Definition num_add (x y : num) : num :=
  match x, y with
  | NaN, _ | _, NaN => NaN
  | Fin a, Fin b => Fin (a + b)
  | PInf, NInf | NInf, PInf => NaN
  | PInf, _ | _, PInf => PInf
  | NInf, _ | _, NInf => NInf
  end.

Definition num_sub (x y : num) : num := num_add x (num_opp y).

Definition num_mul (x y : num) : num :=
  match x, y with
  | NaN, _ | _, NaN => NaN
  | Fin a, Fin b => Fin (a * b)
  | Fin a, PInf | PInf, Fin a =>
      if decide (a = 0) then NaN else inf_of_sign (bool_decide (a < 0))
  | Fin a, NInf | NInf, Fin a =>
      if decide (a = 0) then NaN else inf_of_sign (bool_decide (0 < a))
  | PInf, PInf | NInf, NInf => PInf
  | PInf, NInf | NInf, PInf => NInf
  end.

(** [x / 0] is [nan] for [x = 0] and an infinity of the sign of [x]
    otherwise; no exception is raised (tensor and numpy-scalar division). *)
Definition num_div (x y : num) : num :=
  match x, y with
  | NaN, _ | _, NaN => NaN
  | Fin a, Fin b =>
      if decide (b = 0)
      then if decide (a = 0) then NaN else inf_of_sign (bool_decide (a < 0))
      else Fin (a / b)
  | Fin _, (PInf | NInf) => Fin 0
  | PInf, Fin b => inf_of_sign (bool_decide (b < 0))
  | NInf, Fin b => inf_of_sign (bool_decide (0 ≤ b))
  | (PInf | NInf), (PInf | NInf) => NaN
  end.

(** Comparisons: every comparison with [nan] is false. *)
Definition num_ltb (x y : num) : bool :=
  match x, y with
  | NaN, _ | _, NaN => false
  | Fin a, Fin b => bool_decide (a < b)
  | NInf, (Fin _ | PInf) => true
  | Fin _, PInf => true
  | _, _ => false
  end.

Definition num_leb (x y : num) : bool :=
  match x, y with
  | NaN, _ | _, NaN => false
  | Fin a, Fin b => bool_decide (a ≤ b)
  | NInf, _ => true
  | _, PInf => true
  | _, _ => false
  end.

(** [x == 0] and [x > 0]. *)
Definition num_is_zero (x : num) : bool :=
  match x with
  | Fin a => bool_decide (a = 0)
  | _ => false
  end.

Definition num_is_pos (x : num) : bool := num_ltb (Fin 0) x.

(** [lo <= x <= hi] for a float [x] and finite bounds. *)
Definition in_range (lo hi : Qc) (x : num) : Prop :=
  match x with
  | Fin a => lo ≤ a ≤ hi
  | _ => False
  end.

(** ** Tensors *)

Record tensor : Type := Tensor {
  shape : list nat;
  data : list num
}.

Global Instance tensor_eq_dec : EqDecision tensor.
Proof. solve_decision. Defined.

Definition numel (sh : list nat) : nat := foldr Nat.mul 1%nat sh.

Definition tensor_wf (t : tensor) : Prop :=
  length (data t) = numel (shape t).

(** Elementwise operation with a scalar. *)
Definition tensor_map (f : num → num) (t : tensor) : tensor :=
  Tensor (shape t) (f <$> data t).

(** [t[c, i, j]] of a 3-dimensional tensor and [t[i, j]] of a 2-dimensional
    one; [None] stands for an index out of bounds or another rank. *)
Definition at3 (t : tensor) (c i j : nat) : option num :=
  match shape t with
  | [C; H; W] =>
      if decide (c < C ∧ i < H ∧ j < W)%nat
      then data t !! ((c * H + i) * W + j)%nat
      else None
  | _ => None
  end.

Definition at2 (t : tensor) (i j : nat) : option num :=
  match shape t with
  | [H; W] =>
      if decide (i < H ∧ j < W)%nat
      then data t !! (i * W + j)%nat
      else None
  | _ => None
  end.

(** [chunks n k l]: the first [n] consecutive blocks of [k] elements. *)
Fixpoint chunks (n k : nat) (l : list num) : list (list num) :=
  match n with
  | O => []
  | S n' => take k l :: chunks n' k (drop k l)
  end.

(** [Tensor.unsqueeze(0)]. *)
Definition unsqueeze0 (t : tensor) : tensor :=
  Tensor (1%nat :: shape t) (data t).

(** Broadcasting of the elements from shape [ss] to shape [ts], both of the
    same rank: a dimension is kept when the sizes agree and repeated when
    the source size is 1; anything else does not broadcast. *)
Fixpoint expand_data (ss ts : list nat) (d : list num) : option (list num) :=
  match ss, ts with
  | [], [] => Some d
  | s :: ss', t :: ts' =>
      if decide (s = t) then
        rs ← mapM (expand_data ss' ts') (chunks s (numel ss') d);
        Some (mjoin rs)
      else if decide (s = 1%nat) then
        r ← expand_data ss' ts' d; Some (mjoin (replicate t r))
      else None
  | _, _ => None
  end.

(** [Tensor.expand_as(other)]: missing leading dimensions count as 1; a
    source of higher rank than the target is refused. *)
Definition expand_as (t other : tensor) : result tensor :=
  let r := length (shape t) in
  let r' := length (shape other) in
  if decide (r ≤ r')%nat then
    match expand_data (replicate (r' - r) 1%nat ++ shape t) (shape other)
            (data t) with
    | Some d => Ok (Tensor (shape other) d)
    | None => Raise RuntimeError
    end
  else Raise RuntimeError.

(** [torch.clamp(x, lo, hi)] on one element: [min(max(x, lo), hi)], with
    [nan] kept. *)
Definition clamp (lo hi : num) (x : num) : num :=
  match x with
  | NaN => NaN
  | _ =>
      let y := if num_ltb x lo then lo else x in
      if num_ltb hi y then hi else y
  end.

Definition torch_clamp (t : tensor) (lo hi : num) : tensor :=
  tensor_map (clamp lo hi) t.

(** [t[m == 0] = 0] for a mask [m] of the shape of [t]. *)
Definition zero_where (x m : num) : num :=
  if num_is_zero m then Fin 0 else x.

Definition assign_zero_where_zero (t m : tensor) : tensor :=
  Tensor (shape t) (zip_with zero_where (data t) (data m)).

(** ** Samples after tensorization *)


Abbreviation tensor_sample := (Sample tensor).

(** The data model of a tensorized sample: an image of shape [(C, H, W)] and
    a mask of shape [(H, W)]. *)
Definition sample_wf (C H W : nat) (s : tensor_sample) : Prop :=
  shape (image s) = [C; H; W] ∧ shape (mask s) = [H; W] ∧
  tensor_wf (image s) ∧ tensor_wf (mask s).

(** ** ClipAndRescale *)

Record ClipAndRescale : Type := {
  clip_range : num * num;
  rescale_range : num * num
}.

Definition default_clip_range : num * num :=
  (Fin (Qc_of_Z (-5)), Fin (Qc_of_Z 5)).
Definition default_rescale_range : num * num := (Fin 0, Fin 1).

(** [ClipAndRescale.__init__]: both ranges are stored as given. *)
Definition ClipAndRescale_init (clip_range rescale_range : num * num)
  : result ClipAndRescale :=
  Ok {| clip_range := clip_range; rescale_range := rescale_range |}.

(** One element of [rescaled_image] (lines 35-37). *)
Definition rescale (self : ClipAndRescale) (x : num) : num :=
  let '(min_val, max_val) := rescale_range self in
  num_add
    (num_mul
       (num_div (num_sub x (clip_range self).1)
                (num_sub (clip_range self).2 (clip_range self).1))
       (num_sub max_val min_val))
    min_val.

(** [rescaled_image] before the background is set to 0 (lines 30-37). *)
Definition ClipAndRescale_rescaled (self : ClipAndRescale) (image : tensor)
  : tensor :=
  let clipped_image :=
    torch_clamp image (clip_range self).1 (clip_range self).2 in
  tensor_map (rescale self) clipped_image.

(** [ClipAndRescale.__call__]. *)
Definition ClipAndRescale_call (self : ClipAndRescale) (sample : tensor_sample)
  : result tensor_sample :=
  let '(image, mask) := (image sample, mask sample) in
  let rescaled_image := ClipAndRescale_rescaled self image in
  expanded_mask ← expand_as (unsqueeze0 mask) rescaled_image;
  let rescaled_image := assign_zero_where_zero rescaled_image expanded_mask in
  Ok {| image := rescaled_image; mask := mask |}.

(** A stage with finite ranges [(a, b)] and [(lo, hi)], and the affine map
    of lines 35-37 on a finite value. *)
Definition finite_stage (a b lo hi : Qc) : ClipAndRescale :=
  {| clip_range := (Fin a, Fin b); rescale_range := (Fin lo, Fin hi) |}.

Definition affine (a b lo hi q : Qc) : Qc :=
  (q - a) / (b - a) * (hi - lo) + lo.

(** ** PIL images

    An image is its size and its pixels in row-major order; the dataset
    opens lesion images in mode [RGB] and masks in mode [L], both with 8-bit
    bands. *)

Record img (A : Type) : Type := Img {
  width : nat;
  height : nat;
  pixels : list A
}.
Arguments Img {A} width height pixels.
Arguments width {A} i.
Arguments height {A} i.
Arguments pixels {A} i.

Inductive pil_image : Type :=
  | RGB (im : img (byte * byte * byte))
  | L (im : img byte).

Definition img_wf {A} (im : img A) : Prop :=
  (0 < width im)%nat ∧ (0 < height im)%nat ∧
  length (pixels im) = (height im * width im)%nat.

Definition pil_size (p : pil_image) : nat * nat :=
  match p with
  | RGB im => (width im, height im)
  | L im => (width im, height im)
  end.

(** The band values of every pixel: the values an image holds. *)
Definition labels (p : pil_image) : list (list byte) :=
  match p with
  | RGB im => (λ px, [px.1.1; px.1.2; px.2]) <$> pixels im
  | L im => (λ px, [px]) <$> pixels im
  end.

(** *** Resizing

    [Image.NEAREST] copies, for every target pixel, the source pixel under
    the centre of the target pixel.  A source without that pixel (an image
    that is not well formed) contributes nothing. *)
Definition nearest_index (src dst k : nat) : nat :=
  ((2 * k + 1) * src / (2 * dst))%nat.

Definition resize_nearest {A} (w h : nat) (im : img A) : img A :=
  Img w h
    (i ← seq 0 h;
     omap (λ j, pixels im !! (nearest_index (height im) h i * width im
                               + nearest_index (width im) w j)%nat)
          (seq 0 w)).

Definition pil_resize_nearest (w h : nat) (p : pil_image) : pil_image :=
  match p with
  | RGB im => RGB (resize_nearest w h im)
  | L im => L (resize_nearest w h im)
  end.

Inductive resample : Type := NEAREST | BILINEAR.

(** The [size] argument of [Image.resize]: an int, a pair of ints, or an
    object that is neither an int nor a tuple.  A tuple that is not a pair
    of ints is not represented. *)
Inductive size_arg : Type :=
  | SizeInt (n : Z)
  | SizePair (w h : Z)
  | SizeOther.

(** ** ToTensor

    [transforms.functional.to_tensor] on an 8-bit PIL image: the bands become
    the leading dimension and every value is divided by 255. *)
Definition byte_to_float (b : byte) : num :=
  Fin (Qc_of_Z (Z.of_N (Byte.to_N b)) / Qc_of_Z 255).

Definition to_tensor (pic : pil_image) : tensor :=
  match pic with
  | RGB im =>
      Tensor [3%nat; height im; width im]
        (((λ px, byte_to_float px.1.1) <$> pixels im)
         ++ ((λ px, byte_to_float px.1.2) <$> pixels im)
         ++ ((λ px, byte_to_float px.2) <$> pixels im))
  | L im =>
      Tensor [1%nat; height im; width im] (byte_to_float <$> pixels im)
  end.

(** [Tensor.squeeze()]: every dimension of size 1 is removed. *)
Definition squeeze (t : tensor) : tensor :=
  Tensor (filter (λ d, d ≠ 1%nat) (shape t)) (data t).

(** [ToTensor.__call__]. *)
Definition ToTensor_call (sample : Sample pil_image) : result tensor_sample :=
  let '(image, mask) := (image sample, mask sample) in
  let image := to_tensor image in
  let mask := squeeze (to_tensor mask) in
  Ok {| image := image; mask := mask |}.

(** ** Names

    The objects a name of [Normalise.__call__] can be bound to, and the
    resolution of a name: the names the method assigns are found in its
    local scope, any other name among the names the module binds (its
    imports, classes and function).  The builtin scope, searched last, binds
    none of the names the method reads. *)
Inductive value : Type :=
  | VTensor (t : tensor)
  | VArray (t : tensor)
  | VFloat (x : num)
  | VSample (s : tensor_sample)
  | VSelf
  | VGlobal (name : string).

Global Instance value_eq_dec : EqDecision value.
Proof. solve_decision. Defined.

Definition module_globals : list string :=
  ["os"; "torch"; "Dataset"; "transforms"; "Image"; "plt"; "Normalise";
   "ClipAndRescale"; "Rescale"; "ToTensor"; "get_transform"; "ISICDataset"].

Definition lookup_name (locals : gmap string value) (name : string)
  : result value :=
  match locals !! name with
  | Some v => Ok v
  | None =>
      if bool_decide (name ∈ module_globals) then Ok (VGlobal name)
      else Raise (NameError name)
  end.

(** ** Rescale *)

Record Rescale : Type := { output_size : size_arg }.

(** [Rescale.__init__]: [assert isinstance(output_size, (int, tuple))]. *)
Definition Rescale_init (output_size : size_arg) : result Rescale :=
  match output_size with
  | SizeOther => Raise AssertionError
  | _ => Ok {| output_size := output_size |}
  end.

(** ** numpy reductions and the foreground selection *)

Definition num_sum (l : list num) : num := foldr num_add (Fin 0) l.

(** [a.mean()]: the mean of no element is [0 / 0]. *)
Definition ndarray_mean (a : tensor) : num :=
  num_div (num_sum (data a)) (Fin (Qc_of_Z (Z.of_nat (length (data a))))).

(** [a[0, m > 0]]: the blocks of [a[0]] at the positions where [m] is
    positive; the shape of [m] has to agree with the dimensions it indexes. *)
Definition getitem_0_positive (a m : tensor) : result tensor :=
  match shape a with
  | [] => Raise IndexError
  | c :: rest =>
      if decide (c = 0%nat) then Raise IndexError
      else if decide (take (length (shape m)) rest = shape m) then
        let tail := drop (length (shape m)) rest in
        let blocks := chunks (numel (shape m)) (numel tail) (data a) in
        Ok (Tensor
              (length (filter (λ x, num_is_pos x = true) (data m)) :: tail)
              (mjoin (zip_with (λ x block, if num_is_pos x then block else [])
                               (data m) blocks)))
      else Raise IndexError
  end.

(** Written after the specification: the foreground of a tensorized sample,
    that is, the intensities of channel 0 at the positions where the mask is
    positive. *)
Definition foreground (s : tensor_sample) : list num :=
  (filter (λ p, num_is_pos p.2 = true)
          (zip (data (image s)) (data (mask s)))).*1.

Section transforms.
(** The square root of a non-negative rational, as numpy computes it, and
    PIL's bilinear resampling to a width and a height. *)
Variable fsqrt : Qc → Qc.
Variable resize_bilinear : nat → nat → pil_image → pil_image.

Definition num_sqrt (x : num) : num :=
  match x with
  | Fin a => if decide (a < 0) then NaN else Fin (fsqrt a)
  | PInf => PInf
  | NInf | NaN => NaN
  end.

(** [a.std()]: the population standard deviation. *)
Definition ndarray_std (a : tensor) : num :=
  let m := ndarray_mean a in
  num_sqrt
    (ndarray_mean
       (tensor_map (λ x, num_mul (num_sub x m) (num_sub x m)) a)).

(** [Image.resize(size, resample)]. *)
Definition Image_resize (size : size_arg) (filter : resample)
    (im : pil_image) : result pil_image :=
  match size with
  | SizePair w h =>
      if decide (0 < w ∧ 0 < h)%Z then
        Ok (match filter with
            | NEAREST => pil_resize_nearest (Z.to_nat w) (Z.to_nat h) im
            | BILINEAR => resize_bilinear (Z.to_nat w) (Z.to_nat h) im
            end)
      else Raise ValueError
  | _ => Raise TypeError
  end.

(** [Rescale.__call__]. *)
Definition Rescale_call (self : Rescale) (sample : Sample pil_image)
  : result (Sample pil_image) :=
  let '(image, mask) := (image sample, mask sample) in
  image ← Image_resize (output_size self) BILINEAR image;
  mask ← Image_resize (output_size self) NEAREST mask;
  Ok {| image := image; mask := mask |}.

(** ** Normalise

    The local scope of [Normalise.__call__] when line 18 is reached. *)
Definition Normalise_locals (sample : tensor_sample)
  : result (gmap string value) :=
  let '(image, mask) := (image sample, mask sample) in
  brain_pixels ← getitem_0_positive image mask;
  let mean := ndarray_mean brain_pixels in
  let std := ndarray_std brain_pixels in
  let Normalised_image :=
    tensor_map (λ x, num_div (num_sub x mean) std) image in
  Ok (<["Normalised_image" := VTensor Normalised_image]>
      (<["std" := VFloat std]>
       (<["mean" := VFloat mean]>
        (<["brain_pixels" := VArray brain_pixels]>
         (<["mask" := VTensor mask]>
          (<["image" := VTensor image]>
           (<["sample" := VSample sample]>
            (<["self" := VSelf]> ∅)))))))).

(** [Normalise.__call__]: line 18 reads [normalised_image] and [mask]. *)
Definition Normalise_call (sample : tensor_sample) : result (Sample value) :=
  locals ← Normalise_locals sample;
  image ← lookup_name locals "normalised_image";
  mask ← lookup_name locals "mask";
  Ok {| image := image; mask := mask |}.

(** ** get_transform *)

(** The stage objects of the composition; [ToTensor()] and [Normalise()]
    have no attribute. *)
Record Compose : Type := {
  transform_Rescale : Rescale;
  transform_ClipAndRescale : ClipAndRescale
}.

Definition get_transform : result Compose :=
  t1 ← Rescale_init (SizePair 128 128);
  t4 ← ClipAndRescale_init default_clip_range default_rescale_range;
  Ok {| transform_Rescale := t1; transform_ClipAndRescale := t4 |}.

(** [torch.clamp] takes tensors only. *)
Definition tensors_of (s : Sample value) : result tensor_sample :=
  match image s, mask s with
  | VTensor i, VTensor m => Ok {| image := i; mask := m |}
  | _, _ => Raise TypeError
  end.

(** [Compose.__call__]: the four transforms in order. *)
Definition Compose_call (self : Compose) (img : Sample pil_image)
  : result tensor_sample :=
  img ← Rescale_call (transform_Rescale self) img;
  img ← ToTensor_call img;
  img ← Normalise_call img;
  img ← tensors_of img;
  ClipAndRescale_call (transform_ClipAndRescale self) img.
End transforms.

(** ** The object store

    The same four calls with the objects they work on held in a store: a
    sample is a pair of references, a call reads the objects it is given,
    creates the objects it returns and, on line 44, writes to one in place.
    The temporaries of an expression are not kept. *)

Global Instance tensor_inhabited : Inhabited tensor := populate (Tensor [] []).
Global Instance pil_image_inhabited : Inhabited pil_image :=
  populate (L (Img 0 0 [])).

Record store : Type := Store {
  pil_objects : list pil_image;
  tensor_objects : list tensor
}.

Definition stateful (A : Type) : Type := store → store * result A.

Global Instance stateful_ret : MRet stateful := λ A a σ, (σ, Ok a).
Global Instance stateful_bind : MBind stateful := λ A B f m σ,
  match m σ with
  | (σ', Ok a) => f a σ'
  | (σ', Raise e) => (σ', Raise e)
  end.

Definition raise_or {A} (r : result A) : stateful A := λ σ, (σ, r).

Definition get_pil (l : nat) : stateful pil_image :=
  λ σ, (σ, Ok (pil_objects σ !!! l)).
Definition get_tensor (l : nat) : stateful tensor :=
  λ σ, (σ, Ok (tensor_objects σ !!! l)).

Definition new_pil (p : pil_image) : stateful nat :=
  λ σ, (Store (pil_objects σ ++ [p]) (tensor_objects σ),
        Ok (length (pil_objects σ))).
Definition new_tensor (t : tensor) : stateful nat :=
  λ σ, (Store (pil_objects σ) (tensor_objects σ ++ [t]),
        Ok (length (tensor_objects σ))).

(** The write in place. *)
Definition set_tensor (l : nat) (t : tensor) : stateful unit :=
  λ σ, (Store (pil_objects σ) (<[l:=t]> (tensor_objects σ)), Ok ()).

(** The objects a sample refers to. *)
Definition pil_contents (σ : store) (s : Sample nat) : Sample pil_image :=
  {| image := pil_objects σ !!! image s; mask := pil_objects σ !!! mask s |}.
Definition tensor_contents (σ : store) (s : Sample nat) : tensor_sample :=
  {| image := tensor_objects σ !!! image s;
     mask := tensor_objects σ !!! mask s |}.

(** What a caller observes of a call: the exception, or the tensors of the
    sample returned. *)
Definition outcome (run : store * result (Sample nat)) : result tensor_sample :=
  match run.2 with
  | Ok s => Ok (tensor_contents run.1 s)
  | Raise e => Raise e
  end.

(** References that denote objects of the store, and a store that keeps
    every object of an earlier one. *)
Definition valid_pil (σ : store) (s : Sample nat) : Prop :=
  (image s < length (pil_objects σ))%nat ∧
  (mask s < length (pil_objects σ))%nat.

Definition valid_tensor (σ : store) (s : Sample nat) : Prop :=
  (image s < length (tensor_objects σ))%nat ∧
  (mask s < length (tensor_objects σ))%nat.

Definition extends (σ σ' : store) : Prop :=
  pil_objects σ `prefix_of` pil_objects σ' ∧
  tensor_objects σ `prefix_of` tensor_objects σ'.

(** [ClipAndRescale.__call__]: [rescaled_image] is a new tensor, line 44
    writes to it, and the mask returned is the mask given. *)
Definition ClipAndRescale_call_st (self : ClipAndRescale) (sample : Sample nat)
  : stateful (Sample nat) :=
  let '(image_ref, mask_ref) := (image sample, mask sample) in
  image ← get_tensor image_ref;
  mask ← get_tensor mask_ref;
  rescaled_image ← new_tensor (ClipAndRescale_rescaled self image);
  rescaled ← get_tensor rescaled_image;
  expanded_mask ← raise_or (expand_as (unsqueeze0 mask) rescaled);
  _ ← set_tensor rescaled_image (assign_zero_where_zero rescaled expanded_mask);
  mret {| image := rescaled_image; mask := mask_ref |}.

(** [ToTensor.__call__]: two new tensors. *)
Definition ToTensor_call_st (sample : Sample nat) : stateful (Sample nat) :=
  image ← get_pil (image sample);
  mask ← get_pil (mask sample);
  image ← new_tensor (to_tensor image);
  mask ← new_tensor (squeeze (to_tensor mask));
  mret {| image := image; mask := mask |}.

Section transforms_st.
Variable fsqrt : Qc → Qc.
Variable resize_bilinear : nat → nat → pil_image → pil_image.

(** [Rescale.__call__]: [Image.resize] returns a new image. *)
Definition Rescale_call_st (self : Rescale) (sample : Sample nat)
  : stateful (Sample nat) :=
  image ← get_pil (image sample);
  mask ← get_pil (mask sample);
  image ← raise_or (Image_resize resize_bilinear (output_size self)
                      BILINEAR image);
  image ← new_pil image;
  mask ← raise_or (Image_resize resize_bilinear (output_size self)
                     NEAREST mask);
  mask ← new_pil mask;
  mret {| image := image; mask := mask |}.

(** [Normalise.__call__] creates no object that outlives it but the image it
    would return; the mask it would return is the object it was given. *)
Definition Normalise_call_st (sample : Sample nat) : stateful (Sample nat) :=
  let '(image_ref, mask_ref) := (image sample, mask sample) in
  image ← get_tensor image_ref;
  mask ← get_tensor mask_ref;
  out ← raise_or (Normalise_call fsqrt {| image := image; mask := mask |});
  '(mkSample normalised_image _) ← raise_or (tensors_of out);
  normalised_image ← new_tensor normalised_image;
  mret {| image := normalised_image; mask := mask_ref |}.

(** [Compose.__call__]. *)
Definition Compose_call_st (self : Compose) (img : Sample nat)
  : stateful (Sample nat) :=
  img ← Rescale_call_st (transform_Rescale self) img;
  img ← ToTensor_call_st img;
  img ← Normalise_call_st img;
  ClipAndRescale_call_st (transform_ClipAndRescale self) img.
End transforms_st.

(** ** ISICDataset

    The dataset reads a directory of the file system.  A file system is the
    names each directory lists and the picture each image file holds;
    [os.listdir] and [Image.open] fail with [FileNotFoundError] on a path
    that is absent. *)

Inductive io_exn : Type :=
  | Builtin (e : exn)
  | FileNotFoundError (path : string).

Inductive io_result (A : Type) : Type :=
  | Done (a : A)
  | Failed (e : io_exn).
Arguments Done {A} a.
Arguments Failed {A} e.

Global Instance io_result_ret : MRet io_result := λ A a, Done a.
Global Instance io_result_bind : MBind io_result := λ A B f r,
  match r with
  | Done a => f a
  | Failed e => Failed e
  end.

Global Instance io_exn_eq_dec : EqDecision io_exn.
Proof. solve_decision. Defined.

Definition of_result {A} (r : result A) : io_result A :=
  match r with
  | Ok a => Done a
  | Raise e => Failed (Builtin e)
  end.

Record filesystem : Type := {
  directories : gmap string (list string);
  images : gmap string pil_image
}.

Definition os_listdir (fs : filesystem) (path : string)
  : io_result (list string) :=
  match directories fs !! path with
  | Some names => Done names
  | None => Failed (FileNotFoundError path)
  end.

Definition Image_open (fs : filesystem) (path : string) : io_result pil_image :=
  match images fs !! path with
  | Some im => Done im
  | None => Failed (FileNotFoundError path)
  end.

(** *** Strings and paths *)

(** [s.endswith(suffix)]. *)
Definition endswith (s suffix : string) : bool :=
  bool_decide
    (String.list_ascii_of_string suffix `suffix_of`
       String.list_ascii_of_string s).

(** [s.replace(old, new)]: every occurrence of [old], from the left, none
    overlapping another; an empty [old] occurs before every character and at
    the end. *)
Fixpoint interleave (new s : string) : string :=
  match s with
  | EmptyString => new
  | String c s' => new +:+ String c (interleave new s')
  end.

Fixpoint replace_from (old new : string) (skip : nat) (s : string) : string :=
  match s with
  | EmptyString => EmptyString
  | String c s' =>
      match skip with
      | S k => replace_from old new k s'
      | O =>
          if String.prefix old s
          then new +:+ replace_from old new (String.length old - 1) s'
          else String c (replace_from old new 0 s')
      end
  end.

Definition str_replace (s old new : string) : string :=
  match old with
  | EmptyString => interleave new s
  | _ => replace_from old new 0 s
  end.

(** [os.path.join(a, b)] of [posixpath]. *)
Definition os_path_join (a b : string) : string :=
  if String.prefix "/" b then b
  else if bool_decide (a = "") || endswith a "/" then a +:+ b
  else a +:+ "/" +:+ b.

(** [l[idx]] of a Python list: a negative index counts from the end. *)
Definition list_getitem {A} (l : list A) (idx : Z) : io_result A :=
  let i := if decide (idx < 0)%Z then (Z.of_nat (length l) + idx)%Z else idx in
  if decide (0 ≤ i)%Z then
    match l !! Z.to_nat i with
    | Some x => Done x
    | None => Failed (Builtin IndexError)
    end
  else Failed (Builtin IndexError).

(** *** Conversions of mode

    [Image.convert] to the mode an image has copies it; grey becomes the
    same value in the three bands; the grey value of a colour is PIL's luma,
    a parameter below. *)
Definition convert_RGB (p : pil_image) : img (byte * byte * byte) :=
  match p with
  | RGB im => im
  | L im => Img (width im) (height im) ((λ v, (v, v, v)) <$> pixels im)
  end.

Definition convert_L (luma : byte * byte * byte → byte) (p : pil_image)
  : img byte :=
  match p with
  | RGB im => Img (width im) (height im) (luma <$> pixels im)
  | L im => im
  end.

(** The attributes of a dataset.  Its [transform] is [None] or a composition
    of the four transforms in the order of [get_transform], which is what
    the module passes; another callable is not represented. *)
Record ISICDataset : Type := {
  root_dir : string;
  transform : option Compose;
  image_list : list string;
  mask_list : list string
}.

(** What [__getitem__] returns: the pair of PIL images, or what the
    transform made of it. *)
Inductive item : Type :=
  | RawItem (sample : Sample pil_image)
  | TransformedItem (sample : tensor_sample).

Definition dataset_types : list string := ["training"; "validation"; "test"].

(** [ISICDataset.__init__]. *)
Definition ISICDataset_init (fs : filesystem) (dataset_type : string)
    (transform : option Compose) : io_result ISICDataset :=
  if bool_decide (dataset_type ∈ dataset_types) then
    let root_dir := os_path_join "../../Data" dataset_type in
    names ← os_listdir fs root_dir;
    let image_list :=
      merge_sort String.le (filter (λ f, endswith f ".jpg" = true) names) in
    let mask_list :=
      (λ f, str_replace f ".jpg" "_superpixels.png") <$> image_list in
    Done {| root_dir := root_dir; transform := transform;
            image_list := image_list; mask_list := mask_list |}
  else Failed (Builtin AssertionError).

(** [ISICDataset.__len__]. *)
Definition ISICDataset_len (self : ISICDataset) : nat :=
  length (image_list self).

Section dataset.
Variable fsqrt : Qc → Qc.
Variable resize_bilinear : nat → nat → pil_image → pil_image.
Variable luma : byte * byte * byte → byte.

(** [ISICDataset.__getitem__]. *)
Definition ISICDataset_getitem (fs : filesystem) (self : ISICDataset)
    (idx : Z) : io_result item :=
  image_file ← list_getitem (image_list self) idx;
  let img_name := os_path_join (root_dir self) image_file in
  mask_file ← list_getitem (mask_list self) idx;
  let mask_name := os_path_join (root_dir self) mask_file in
  image ← Image_open fs img_name;
  let image := convert_RGB image in
  mask ← Image_open fs mask_name;
  let mask := convert_L luma mask in
  let sample := {| image := RGB image; mask := L mask |} in
  match transform self with
  | Some t =>
      sample ← of_result (Compose_call fsqrt resize_bilinear t sample);
      Done (TransformedItem sample)
  | None => Done (RawItem sample)
  end.
End dataset.

(** ** Concrete inputs

    Small samples and stages on which the transforms are evaluated. *)

Definition num_of_Z (n : Z) : num := Fin (Qc_of_Z n).

(** The default stage [ClipAndRescale()]. *)
Definition default_stage : ClipAndRescale :=
  {| clip_range := default_clip_range; rescale_range := default_rescale_range |}.

(** Two channels of a 1 x 2 image; the left pixel is foreground. *)
Definition two_channel_sample : tensor_sample :=
  {| image := Tensor [2; 1; 2]%nat
                [num_of_Z 10; num_of_Z (-9); num_of_Z 0; num_of_Z 3];
     mask := Tensor [1; 2]%nat [Fin 1; Fin 0] |}.

Definition two_channel_result : tensor_sample :=
  {| image := Tensor [2; 1; 2]%nat [Fin 1; Fin 0; Fin (1 / 2); Fin 0];
     mask := Tensor [1; 2]%nat [Fin 1; Fin 0] |}.


Definition background_pixel_sample : tensor_sample :=
  {| image := Tensor [1; 1; 1]%nat [Fin 0];
     mask := Tensor [1; 1]%nat [Fin 0] |}.

(** A 2 x 2 lesion image and its mask, the upper row of which is
    foreground. *)
Definition lesion_image : img (byte * byte * byte) :=
  Img 2 2 [("051", "000", "255"); ("153", "010", "020");
           ("007", "007", "007"); ("255", "255", "255")]%byte.

Definition lesion_mask : img byte := Img 2 2 ["255"; "003"; "000"; "000"]%byte.

Definition lesion_sample : Sample pil_image :=
  {| image := RGB lesion_image; mask := L lesion_mask |}.

(** A lesion image and a mask of one row. *)
Definition one_row_sample : Sample pil_image :=
  {| image := RGB (Img 2 1 [("051", "000", "255"); ("153", "010", "020")]%byte);
     mask := L (Img 2 1 ["255"; "003"]%byte) |}.

(** The tensors of [lesion_sample]; the foreground of channel 0 holds 1/5
    and 3/5. *)
Definition lesion_tensors : tensor_sample :=
  {| image := to_tensor (RGB lesion_image);
     mask := squeeze (to_tensor (L lesion_mask)) |}.

Definition lesion_normalised : tensor :=
  Tensor [3; 2; 2]%nat
    [num_of_Z (-1); num_of_Z 1;
     Fin (Qc_of_Z (-95) / Qc_of_Z 51); num_of_Z 3;
     num_of_Z (-2); Fin (Qc_of_Z (-92) / Qc_of_Z 51);
     Fin (Qc_of_Z (-95) / Qc_of_Z 51); num_of_Z 3;
     num_of_Z 3; Fin (Qc_of_Z (-82) / Qc_of_Z 51);
     Fin (Qc_of_Z (-95) / Qc_of_Z 51); num_of_Z 3].

(** A sample without foreground, and one whose foreground is constant. *)
Definition empty_foreground_sample : tensor_sample :=
  {| image := Tensor [1; 1; 2]%nat [Fin 1; Fin (1 / 2)];
     mask := Tensor [1; 2]%nat [Fin 0; Fin 0] |}.

Definition constant_foreground_sample : tensor_sample :=
  {| image := Tensor [2; 1; 2]%nat [Fin (1 / 2); Fin (1 / 2); Fin 1; Fin 0];
     mask := Tensor [1; 2]%nat [Fin 1; Fin 1] |}.

(** A square root that is exact on the squares of rationals. *)
Definition sqrt_on_squares (q : Qc) : Qc :=
  Q2Qc (Z.sqrt (Qnum q) # Pos.sqrt (Qden q)).

(** A store that holds [lesion_image] and [lesion_mask], and the tensors of
    [two_channel_sample]. *)
Definition lesion_store : store :=
  {| pil_objects := [RGB lesion_image; L lesion_mask];
     tensor_objects := [image two_channel_sample; mask two_channel_sample] |}.

Definition lesion_refs : Sample nat := {| image := 0%nat; mask := 1%nat |}.

(** A PIL image with as many pixels as its size says, and its mode. *)
Definition pil_wf (p : pil_image) : Prop :=
  match p with
  | RGB im => img_wf im
  | L im => img_wf im
  end.

Definition is_greyscale (p : pil_image) : bool :=
  match p with
  | RGB _ => false
  | L _ => true
  end.

(** A file system with one directory of two lesion images, one of them
    without its mask, and the dataset read from it. *)
Definition example_fs : filesystem :=
  {| directories :=
       {[ "../../Data/training" :=
            ["b.jpg"; "notes.txt"; "a.jpg"; "a_superpixels.png"] ]};
     images :=
       {[ "../../Data/training/a.jpg" := RGB lesion_image;
          "../../Data/training/a_superpixels.png" := L lesion_mask;
          "../../Data/training/b.jpg" := RGB lesion_image ]} |}.

Definition example_dataset (transform : option Compose) : ISICDataset :=
  {| root_dir := "../../Data/training";
     transform := transform;
     image_list := ["a.jpg"; "b.jpg"];
     mask_list := ["a_superpixels.png"; "b_superpixels.png"] |}.


(** A stand-in for PIL's luma: the red band. *)
Definition red_band (px : byte * byte * byte) : byte := px.1.1.

(** * Properties *)

(** ** Arithmetic of clipping and rescaling *)

Lemma Qc_sub_nonneg (x y : Qc) : y ≤ x → 0 ≤ x - y.
Proof.
  intros Hle. apply (Qcplus_le_mono_r _ _ y).
  by replace (x - y + y) with x by ring; rewrite Qcplus_0_l.
Qed.

Lemma Qc_sub_pos (x y : Qc) : y < x → 0 < x - y.
Proof.
  intros Hlt. apply (Qcplus_lt_mono_r _ _ y).
  by replace (x - y + y) with x by ring; rewrite Qcplus_0_l.
Qed.

Lemma Qc_sub_ne_0 (x y : Qc) : x ≠ y → y - x ≠ 0.
Proof.
  intros Hne Heq. apply Hne.
  replace y with (y - x + x) by ring. rewrite Heq. ring.
Qed.



Section clip_and_rescale.
Variables a b lo hi : Qc.

Local Abbreviation finite_stage := (finite_stage a b lo hi).
Local Abbreviation affine := (affine a b lo hi).

Lemma rescale_finite (q : Qc) :
  a ≠ b → rescale finite_stage (Fin q) = Fin (affine q).
Proof.
  intros Hne. unfold rescale, affine; simpl.
  destruct (decide (b + - a = 0)) as [Heq | _]; [| done].
  by destruct (Qc_sub_ne_0 a b Hne).
Qed.



(** Clipping yields a finite value of [[a, b]] for every input but [nan]. *)
Lemma clamp_finite (x : num) :
  a ≤ b → x ≠ NaN → ∃ q, clamp (Fin a) (Fin b) x = Fin q ∧ a ≤ q ≤ b.
Proof.
  intros Hab Hx. destruct x as [v | | |]; simpl; [| | | done].
  - destruct (bool_decide_reflect (v < a)) as [Hva | Hva]; simpl.
    + rewrite bool_decide_eq_false_2 by (by apply Qcle_not_lt).
      by exists a.
    + apply Qcnot_lt_le in Hva.
      destruct (bool_decide_reflect (b < v)) as [Hbv | Hbv].
      * by exists b.
      * apply Qcnot_lt_le in Hbv. by exists v.
  - by exists b.
  - rewrite bool_decide_eq_false_2 by (by apply Qcle_not_lt).
    by exists a.
Qed.


End clip_and_rescale.

(** ** Broadcasting the mask over the channels *)

Lemma chunks_join (n k : nat) (l : list num) :
  length l = (n * k)%nat → mjoin (chunks n k l) = l.
Proof.
  revert l. induction n as [| n IH]; intros l Hlen; simpl in *.
  - symmetry. by apply nil_length_inv.
  - rewrite IH by (rewrite length_drop; lia). apply take_drop.
Qed.

Lemma chunks_Forall_length (n k : nat) (l : list num) :
  length l = (n * k)%nat → Forall (λ c, length c = k) (chunks n k l).
Proof.
  revert l. induction n as [| n IH]; intros l Hlen; simpl in *; [done |].
  constructor.
  - rewrite length_take. lia.
  - apply IH. rewrite length_drop. lia.
Qed.

Lemma expand_data_cons (s t : nat) (ss ts : list nat) (d : list num) :
  expand_data (s :: ss) (t :: ts) d
  = if decide (s = t) then
      rs ← mapM (expand_data ss ts) (chunks s (numel ss) d); Some (mjoin rs)
    else if decide (s = 1%nat) then
      r ← expand_data ss ts d; Some (mjoin (replicate t r))
    else None.
Proof. done. Qed.

Lemma expand_data_same (sh : list nat) (d : list num) :
  length d = numel sh → expand_data sh sh d = Some d.
Proof.
  revert d. induction sh as [| s sh IH]; intros d Hlen; [done |].
  rewrite expand_data_cons, decide_True by done. simpl in Hlen.
  assert (mapM (expand_data sh sh) (chunks s (numel sh) d)
          = Some (chunks s (numel sh) d)) as ->.
  { apply mapM_Some. apply Forall_Forall2_diag.
    eapply Forall_impl; [by apply chunks_Forall_length |].
    intros c Hc. by apply IH. }
  simpl. by rewrite chunks_join.
Qed.

(** A leading dimension of size 1 is repeated. *)
Lemma expand_data_leading (C : nat) (sh : list nat) (d : list num) :
  length d = numel sh →
  expand_data (1%nat :: sh) (C :: sh) d = Some (mjoin (replicate C d)).
Proof.
  intros Hlen. rewrite expand_data_cons.
  destruct (decide (1 = C)%nat) as [<- | HC].
  - assert (mapM (expand_data sh sh) (chunks 1 (numel sh) d) = Some [d]) as ->.
    { apply mapM_Some. cbn [chunks]. rewrite take_ge by lia.
      constructor; [by apply expand_data_same | constructor]. }
    done.
  - rewrite decide_True by done. by rewrite expand_data_same.
Qed.

Lemma expand_as_mask (m t : tensor) (C H W : nat) :
  shape m = [H; W] → tensor_wf m → shape t = [C; H; W] →
  expand_as (unsqueeze0 m) t
  = Ok (Tensor [C; H; W] (mjoin (replicate C (data m)))).
Proof.
  unfold tensor_wf, expand_as. intros Hm Hwf Ht.
  rewrite Ht. cbn [unsqueeze0 shape data length]. rewrite Hm in *.
  cbn [length]. rewrite decide_True by lia.
  replace (3 - 3)%nat with 0%nat by lia. cbn [replicate app].
  by rewrite expand_data_leading.
Qed.

Lemma lookup_join_replicate (d : list num) (C c k : nat) :
  (c < C)%nat → (k < length d)%nat →
  mjoin (replicate C d) !! (c * length d + k)%nat = d !! k.
Proof.
  revert c. induction C as [| C IH]; intros c Hc Hk; [lia |]. simpl.
  destruct c as [| c]; simpl.
  - by rewrite lookup_app_l.
  - rewrite lookup_app_r by lia.
    replace (length d + c * length d + k - length d)%nat
      with (c * length d + k)%nat by lia.
    apply IH; lia.
Qed.

(** ** What [ClipAndRescale.__call__] returns, element by element *)

Lemma flat_index_lt (C H W c i j : nat) :
  (c < C)%nat → (i < H)%nat → (j < W)%nat →
  ((c * H + i) * W + j < C * (H * W))%nat.
Proof.
  intros Hc Hi Hj.
  assert (c * H + i + 1 ≤ C * H)%nat as Hrow by nia.
  pose proof (Nat.mul_le_mono_r _ _ W Hrow). lia.
Qed.

Lemma sample_wf_at3 (C H W : nat) (s : tensor_sample) (c i j : nat) :
  sample_wf C H W s → (c < C)%nat → (i < H)%nat → (j < W)%nat →
  ∃ x, at3 (image s) c i j = Some x ∧
       data (image s) !! ((c * H + i) * W + j)%nat = Some x.
Proof.
  intros (Hi & _ & Hwf & _) Hc Hi' Hj. unfold at3, tensor_wf in *.
  rewrite Hi in *. rewrite decide_True by done. simpl in Hwf.
  destruct (lookup_lt_is_Some_2 (data (image s)) ((c * H + i) * W + j)%nat)
    as [x Hx]; [| by exists x].
  rewrite Hwf. pose proof (flat_index_lt C H W c i j). lia.
Qed.


Lemma ClipAndRescale_call_at3 (self : ClipAndRescale) (s s' : tensor_sample)
    (C H W c i j : nat) (x m : num) :
  sample_wf C H W s → ClipAndRescale_call self s = Ok s' →
  at3 (image s) c i j = Some x → at2 (mask s) i j = Some m →
  mask s' = mask s ∧ shape (image s') = [C; H; W] ∧
  at3 (image s') c i j
  = Some (zero_where
            (rescale self (clamp (clip_range self).1 (clip_range self).2 x))
            m).
Proof.
  intros Hwf Hcall Hx Hm. pose proof Hwf as (Hi & Hmk & Hwi & Hwm).
  unfold ClipAndRescale_call in Hcall.
  rewrite (expand_as_mask _ _ C H W) in Hcall by done.
  simpl in Hcall. injection Hcall as <-. simpl.
  split; [done |]. split; [done |].
  unfold at3, at2 in *; simpl. rewrite Hi, Hmk in *.
  destruct (decide (c < C ∧ i < H ∧ j < W)%nat) as [(Hc & Hi' & Hj) | ];
    [| done].
  rewrite decide_True in Hm by done.
  rewrite lookup_zip_with, !list_lookup_fmap, Hx; simpl.
  unfold tensor_wf in Hwm. rewrite Hmk in Hwm; simpl in Hwm.
  replace ((c * H + i) * W + j)%nat
    with (c * length (data (mask s)) + (i * W + j))%nat by nia.
  rewrite lookup_join_replicate by (done || nia).
  by rewrite Hm.
Qed.

(** Closed facts about concrete values are decided by evaluation. *)
Ltac by_evaluation := apply (bool_decide_unpack _); vm_compute; exact I.

Lemma two_channel_sample_wf : sample_wf 2 1 2 two_channel_sample.
Proof. by repeat split. Qed.

Lemma background_pixel_sample_wf : sample_wf 1 1 1 background_pixel_sample.
Proof. by repeat split. Qed.

Lemma two_channel_call :
  ClipAndRescale_call default_stage two_channel_sample = Ok two_channel_result.
Proof. by_evaluation. Qed.

(** ** The background of the final image *)

(** C1. Whatever the ranges of the stage, [ClipAndRescale.__call__] returns
    an image that is exactly 0, in every channel, at every position where the
    mask it returns is 0.  This is the last transform of [get_transform], so
    it holds of every sample the composition returns. *)
Theorem background_zero (self : ClipAndRescale) (s s' : tensor_sample)
    (C H W c i j : nat) :
  sample_wf C H W s → ClipAndRescale_call self s = Ok s' →
  (c < C)%nat → at2 (mask s') i j = Some (Fin 0) →
  at3 (image s') c i j = Some (Fin 0).
Proof.
  intros Hwf Hcall Hc Hm.
  assert (mask s' = mask s) as Hmask.
  { unfold ClipAndRescale_call in Hcall.
    destruct (expand_as _ _); simpl in Hcall; [| done].
    by injection Hcall as <-. }
  rewrite Hmask in Hm.
  assert (i < H ∧ j < W)%nat as [Hi Hj].
  { destruct Hwf as (_ & Hsh & _). unfold at2 in Hm. rewrite Hsh in Hm.
    by destruct (decide (i < H ∧ j < W)%nat). }
  destruct (sample_wf_at3 C H W s c i j) as (x & Hx & _); [done..|].
  by destruct (ClipAndRescale_call_at3 self s s' C H W c i j x (Fin 0))
    as (_ & _ & ->).
Qed.

Lemma background_zero_witness :
  at3 (image two_channel_result) 1 0 1 = Some (Fin 0).
Proof.
  apply (background_zero default_stage two_channel_sample two_channel_result
           2 1 2 1 0 1).
  - exact two_channel_sample_wf.
  - exact two_channel_call.
  - lia.
  - reflexivity.
Defined.

(** ** The range of the final image *)


(** An element that comes in as [nan] at a foreground position goes out as
    [nan]. *)
Lemma nan_stays_nan (self : ClipAndRescale) (s s' : tensor_sample)
    (C H W c i j : nat) (m : num) :
  sample_wf C H W s → ClipAndRescale_call self s = Ok s' →
  at3 (image s) c i j = Some NaN → at2 (mask s) i j = Some m →
  num_is_zero m = false →
  at3 (image s') c i j = Some NaN.
Proof.
  intros Hwf Hcall Hx Hm Hz.
  destruct (ClipAndRescale_call_at3 self s s' C H W c i j NaN m)
    as (_ & _ & ->); [done..|].
  unfold zero_where. rewrite Hz. unfold rescale; simpl.
  by destruct (rescale_range self).
Qed.



(** ** Clipping, then the affine map *)

Lemma affine_linear (a b lo hi q1 q2 : Qc) :
  affine a b lo hi q1 - affine a b lo hi q2
  = (q1 - q2) * ((hi - lo) / (b - a)).
Proof. unfold affine, Qcdiv. ring. Qed.





(** ** Construction of the stage *)

(** C9, as stated, fails: a stage with both ranges inverted is constructed
    without an error. *)
Lemma ClipAndRescale_init_counterexample :
  num_leb (num_of_Z (-5)) (num_of_Z 5) = true ∧
  num_leb (Fin 0) (Fin 1) = true ∧
  ClipAndRescale_init (num_of_Z 5, num_of_Z (-5)) (Fin 1, Fin 0)
  ≠ Raise InvalidRangeError.
Proof. by repeat split. Qed.

(** C9, amended. [ClipAndRescale.__init__] never fails: it stores the two
    ranges as they are given, whatever their order. *)
Theorem ClipAndRescale_init_stores (clip rescale : num * num) :
  ∃ self, ClipAndRescale_init clip rescale = Ok self ∧
          clip_range self = clip ∧ rescale_range self = rescale.
Proof. by eexists. Qed.

(** ** Tensorization *)

Lemma byte_to_float_in_range (v : byte) : in_range 0 1 (byte_to_float v).
Proof. unfold in_range, byte_to_float. destruct v; by_evaluation. Qed.

Lemma byte_to_float_zero (v : byte) :
  byte_to_float v = Fin 0 ↔ v = "000"%byte.
Proof.
  split; [| by intros ->; by_evaluation].
  destruct v; try done; intros Heq; exfalso; revert Heq; by_evaluation.
Qed.

Lemma byte_to_float_pos (v : byte) :
  num_is_pos (byte_to_float v) = true ↔ v ≠ "000"%byte.
Proof.
  split.
  - intros Hpos ->. revert Hpos. by_evaluation.
  - intros Hne. destruct v; try done; by_evaluation.
Qed.

Lemma img_wf_index {A} (im : img A) (i j : nat) (px : A) :
  img_wf im → pixels im !! (i * width im + j)%nat = Some px →
  (j < width im)%nat → (i < height im)%nat.
Proof.
  intros (_ & _ & Hlen) Hpx Hj. apply lookup_lt_Some in Hpx. nia.
Qed.

(** C7, as stated, fails: the mask labels 255 and 3 become 1 and 3/255,
    and a mask of one row becomes a 1-dimensional tensor. *)
Lemma ToTensor_call_counterexample :
  (pixels lesion_mask !! 0%nat = Some "255"%byte ∧
   pixels lesion_mask !! 1%nat = Some "003"%byte ∧
   ∃ s', ToTensor_call lesion_sample = Ok s' ∧
         at2 (mask s') 0 0 = Some (Fin 1) ∧ Fin 1 ≠ num_of_Z 255 ∧
         at2 (mask s') 0 1 = Some (Fin (Qc_of_Z 3 / Qc_of_Z 255)) ∧
         Fin (Qc_of_Z 3 / Qc_of_Z 255) ≠ num_of_Z 3) ∧
  (∃ s', ToTensor_call one_row_sample = Ok s' ∧ shape (mask s') = [2%nat]).
Proof.
  split; [split; [done |]; split; [done |] |].
  - eexists. split; [done |]. repeat split; by_evaluation.
  - by eexists.
Qed.

(** The tensors of [ToTensor.__call__], element by element. *)
Lemma ToTensor_call_elements (im : img (byte * byte * byte)) (mk : img byte)
    (H W i j : nat) (r g b v : byte) :
  img_wf im → img_wf mk →
  height im = H → width im = W → height mk = H → width mk = W →
  H ≠ 1%nat → W ≠ 1%nat → (j < W)%nat →
  pixels im !! (i * W + j)%nat = Some (r, g, b) →
  pixels mk !! (i * W + j)%nat = Some v →
  ∃ s', ToTensor_call {| image := RGB im; mask := L mk |} = Ok s' ∧
        shape (image s') = [3%nat; H; W] ∧
        at3 (image s') 0 i j = Some (byte_to_float r) ∧
        at3 (image s') 1 i j = Some (byte_to_float g) ∧
        at3 (image s') 2 i j = Some (byte_to_float b) ∧
        in_range 0 1 (byte_to_float r) ∧
        in_range 0 1 (byte_to_float g) ∧
        in_range 0 1 (byte_to_float b) ∧
        shape (mask s') = [H; W] ∧
        at2 (mask s') i j = Some (byte_to_float v) ∧
        (byte_to_float v = Fin 0 ↔ v = "000"%byte) ∧
        (num_is_pos (byte_to_float v) = true ↔ v ≠ "000"%byte).
Proof.
  intros Hwi Hwm <- <- HH HW HH1 HW1 Hj Hpx Hv.
  pose proof (img_wf_index im i j _ Hwi Hpx Hj) as Hi.
  pose proof Hwi as (_ & _ & Hlen).
  eexists. split; [done |]. simpl.
  assert (i * width im + j < length (pixels im))%nat as Hlt
    by by eapply lookup_lt_Some.
  split; [done |].
  unfold at3, at2; simpl. rewrite HH, HW.
  rewrite !decide_True by (repeat split; lia).
  split; [| split; [| split]].
  - rewrite lookup_app_l by (rewrite length_fmap; lia).
    by rewrite list_lookup_fmap, Hpx.
  - rewrite lookup_app_r by (rewrite length_fmap; lia).
    rewrite length_fmap, Hlen.
    rewrite lookup_app_l by (rewrite length_fmap; lia).
    rewrite list_lookup_fmap.
    match goal with
    | |- context [pixels im !! ?k] =>
        replace k with (i * width im + j)%nat by lia
    end.
    by rewrite Hpx.
  - rewrite !lookup_app_r by (rewrite ?length_fmap; lia).
    rewrite !length_fmap, Hlen.
    rewrite list_lookup_fmap.
    match goal with
    | |- context [pixels im !! ?k] =>
        replace k with (i * width im + j)%nat by lia
    end.
    by rewrite Hpx.
  - repeat (split; [apply byte_to_float_in_range |]).
    rewrite filter_cons_False by (intros Hne; by apply Hne).
    rewrite !filter_cons_True, filter_nil by done.
    rewrite decide_True by done.
    split; [done |]. split; [by rewrite list_lookup_fmap, Hv |].
    split; [apply byte_to_float_zero | apply byte_to_float_pos].
Qed.

(** C7, amended. For an RGB image and an L mask of the same height and
    width, neither of them 1, [ToTensor.__call__] returns an image of shape
    [(3, H, W)] whose element [(c, i, j)] is band [c] of pixel [(i, j)]
    divided by 255, a value of [[0, 1]], and a mask of shape [(H, W)] whose
    element [(i, j)] is the mask pixel divided by 255 as well: it is 0
    exactly where the mask pixel is 0 and positive elsewhere. *)
Theorem ToTensor_call_spec (im : img (byte * byte * byte)) (mk : img byte)
    (H W i j : nat) (r g b v : byte) :
  img_wf im → img_wf mk →
  height im = H → width im = W → height mk = H → width mk = W →
  H ≠ 1%nat → W ≠ 1%nat → (j < W)%nat →
  pixels im !! (i * W + j)%nat = Some (r, g, b) →
  pixels mk !! (i * W + j)%nat = Some v →
  let over_255 (u : byte) : num :=
    Fin (Qc_of_Z (Z.of_N (Byte.to_N u)) / Qc_of_Z 255) in
  ∃ s', ToTensor_call {| image := RGB im; mask := L mk |} = Ok s' ∧
        shape (image s') = [3%nat; H; W] ∧
        at3 (image s') 0 i j = Some (over_255 r) ∧
        at3 (image s') 1 i j = Some (over_255 g) ∧
        at3 (image s') 2 i j = Some (over_255 b) ∧
        in_range 0 1 (over_255 r) ∧
        in_range 0 1 (over_255 g) ∧
        in_range 0 1 (over_255 b) ∧
        shape (mask s') = [H; W] ∧
        at2 (mask s') i j = Some (over_255 v) ∧
        (over_255 v = Fin 0 ↔ v = "000"%byte) ∧
        (num_is_pos (over_255 v) = true ↔ v ≠ "000"%byte).
Proof.
  intros Hwi Hwm HH HW HH' HW' HH1 HW1 Hj Hpx Hv.
  exact (ToTensor_call_elements im mk H W i j r g b v
           Hwi Hwm HH HW HH' HW' HH1 HW1 Hj Hpx Hv).
Qed.

(** ** Resampling of the mask *)

(** Nearest-neighbour resizing only copies pixels. *)
Lemma resize_nearest_pixels {A} (w h : nat) (im : img A) :
  pixels (resize_nearest w h im) ⊆ pixels im.
Proof.
  intros px Hpx. unfold resize_nearest in Hpx; simpl in Hpx.
  apply list_elem_of_bind in Hpx as (i & Hpx & _).
  apply list_elem_of_omap in Hpx as (j & _ & Hpx).
  by eapply list_elem_of_lookup_2.
Qed.

Lemma nearest_index_lt (src dst k : nat) :
  (k < dst)%nat → (0 < src)%nat → (nearest_index src dst k < src)%nat.
Proof.
  intros Hk Hsrc. unfold nearest_index.
  apply Nat.Div0.div_lt_upper_bound. nia.
Qed.

Lemma length_omap_total {A B} (f : A → option B) (l : list A) :
  Forall (λ x, is_Some (f x)) l → length (omap f l) = length l.
Proof.
  induction 1 as [| x l [y Hy] _ IH]; csimpl; [done |].
  rewrite Hy; csimpl. by rewrite IH.
Qed.

Lemma length_bind_const {A B} (f : A → list B) (l : list A) (n : nat) :
  Forall (λ x, length (f x) = n) l → length (l ≫= f) = (length l * n)%nat.
Proof.
  induction 1 as [| x l Hx _ IH]; [done |].
  rewrite bind_cons, length_app, Hx, IH. simpl. lia.
Qed.

(** On a well-formed image every target pixel finds its source pixel: the
    result is a well-formed image of the size asked for. *)
Lemma resize_nearest_wf {A} (w h : nat) (im : img A) :
  img_wf im → (0 < w)%nat → (0 < h)%nat →
  img_wf (resize_nearest w h im) ∧
  width (resize_nearest w h im) = w ∧ height (resize_nearest w h im) = h.
Proof.
  intros (Hw & Hh & Hlen) Hw' Hh'. split; [| done].
  split; [done |]. split; [done |]. simpl.
  rewrite (length_bind_const _ _ w); [by rewrite length_seq |].
  apply Forall_forall. intros i Hi%elem_of_seq.
  rewrite length_omap_total; [by rewrite length_seq |].
  apply Forall_forall. intros j Hj%elem_of_seq.
  apply lookup_lt_is_Some_2. rewrite Hlen.
  pose proof (nearest_index_lt (height im) h i).
  pose proof (nearest_index_lt (width im) w j).
  nia.
Qed.

Lemma pil_resize_nearest_labels (w h : nat) (p : pil_image) :
  labels (pil_resize_nearest w h p) ⊆ labels p.
Proof.
  destruct p as [im | im]; simpl; intros l Hl;
    apply list_elem_of_fmap in Hl as (px & -> & Hpx);
    apply list_elem_of_fmap; exists px; split; try done;
    by apply (resize_nearest_pixels w h im).
Qed.

Section resampling.
Variable resize_bilinear : nat → nat → pil_image → pil_image.

(** C8. Whatever the mask and the target size, every value of the mask
    that [Rescale.__call__] returns is a value of the mask it was given. *)
Theorem Rescale_call_mask_labels (self : Rescale) (s s' : Sample pil_image) :
  Rescale_call resize_bilinear self s = Ok s' →
  labels (mask s') ⊆ labels (mask s).
Proof.
  unfold Rescale_call. intros Hcall.
  destruct (Image_resize resize_bilinear (output_size self) BILINEAR (image s))
    as [im' |]; simpl in Hcall; [| done].
  destruct (Image_resize resize_bilinear (output_size self) NEAREST (mask s))
    as [mk' |] eqn:Hmask; simpl in Hcall; [| done].
  injection Hcall as <-. simpl.
  unfold Image_resize in Hmask.
  destruct (output_size self) as [| w h |]; [done | | done].
  destruct (decide (0 < w ∧ 0 < h)%Z); [| done].
  injection Hmask as <-. apply pil_resize_nearest_labels.
Qed.
End resampling.

(** ** Normalisation *)

Lemma num_sub_NaN (x : num) : num_sub x NaN = NaN.
Proof. by destruct x. Qed.

Lemma num_div_zero_not_finite (y : num) (q : Qc) : num_div y (Fin 0) ≠ Fin q.
Proof.
  destruct y as [a | | |]; simpl.
  - destruct (decide (a = 0)); [done |]. by destruct (bool_decide (a < 0)).
  - by destruct (bool_decide (0 < 0)).
  - by destruct (bool_decide (0 ≤ 0)).
  - done.
Qed.

Lemma Qc_of_Z_0 : Qc_of_Z 0 = 0.
Proof. by apply Qc_is_canon. Qed.

(** The mean of no element is [nan]. *)
Lemma ndarray_mean_empty (a : tensor) : data a = [] → ndarray_mean a = NaN.
Proof.
  intros Hd. unfold ndarray_mean. rewrite Hd.
  change (Z.of_nat (length (@nil num))) with 0%Z. rewrite Qc_of_Z_0.
  by simpl.
Qed.

(** A mask without a positive value selects nothing. *)
Lemma select_nothing (ms : list num) (blocks : list (list num)) :
  Forall (λ m, num_is_pos m = false) ms →
  mjoin (zip_with (λ x block, if num_is_pos x then block else []) ms blocks)
  = [].
Proof.
  intros Hms. revert blocks.
  induction Hms as [| m ms Hm _ IH]; intros [| block blocks]; simpl; try done.
  by rewrite Hm, IH.
Qed.

Lemma getitem_0_positive_empty (a m bp : tensor) :
  Forall (λ x, x = Fin 0) (data m) →
  getitem_0_positive a m = Ok bp → data bp = [].
Proof.
  intros Hm. unfold getitem_0_positive.
  destruct (shape a) as [| c rest]; [done |].
  destruct (decide (c = 0%nat)); [done |].
  destruct (decide _); [| done].
  intros [= <-]; simpl. apply select_nothing.
  eapply Forall_impl; [done |]. by intros x ->.
Qed.

(** The selection succeeds on the data model of a tensorized sample. *)
Lemma getitem_0_positive_sample_wf (C H W : nat) (s : tensor_sample) :
  sample_wf C H W s → (0 < C)%nat →
  ∃ bp, getitem_0_positive (image s) (mask s) = Ok bp.
Proof.
  intros (Hi & Hm & _) HC. unfold getitem_0_positive. rewrite Hi, Hm; simpl.
  rewrite decide_False by lia. rewrite decide_True by done. by eexists.
Qed.

Lemma getitem_0_positive_shapes (a m : tensor) (c : nat) (rest : list nat) :
  shape a = c :: rest → c ≠ 0%nat → shape m = rest →
  ∃ bp, getitem_0_positive a m = Ok bp.
Proof.
  intros Ha Hc Hm. unfold getitem_0_positive. rewrite Ha, Hm.
  rewrite decide_False by done. rewrite take_ge by done.
  rewrite decide_True by done. by eexists.
Qed.

(** The tensors of a resized image and a resized greyscale mask have
    matching shapes. *)
Lemma to_tensor_shape (p : pil_image) (w h : nat) :
  pil_size p = (w, h) →
  ∃ c, c ≠ 0%nat ∧ shape (to_tensor p) = [c; h; w].
Proof.
  destruct p as [im | im]; simpl; intros [= <- <-];
    [exists 3%nat | exists 1%nat]; by split.
Qed.

Lemma squeeze_mask_shape (mk : img byte) (w h : nat) :
  w ≠ 1%nat → h ≠ 1%nat →
  shape (squeeze (to_tensor (L (resize_nearest w h mk)))) = [h; w].
Proof.
  intros Hw Hh. unfold squeeze; simpl.
  rewrite filter_cons_False by (intros Hne; by apply Hne).
  by rewrite !filter_cons_True, filter_nil.
Qed.

Section normalise.
Variable fsqrt : Qc → Qc.
Variable resize_bilinear : nat → nat → pil_image → pil_image.

Lemma Normalise_locals_lookup (s : tensor_sample) (bp : tensor) :
  getitem_0_positive (image s) (mask s) = Ok bp →
  ∃ locals, Normalise_locals fsqrt s = Ok locals ∧
    locals !! "Normalised_image"
    = Some (VTensor (tensor_map
                       (λ x, num_div (num_sub x (ndarray_mean bp))
                                     (ndarray_std fsqrt bp))
                       (image s))) ∧
    locals !! "normalised_image" = None ∧
    locals !! "mask" = Some (VTensor (mask s)).
Proof.
  intros Hget. unfold Normalise_locals. rewrite Hget; simpl.
  eexists. split; [done |]. split; [by rewrite lookup_insert_eq |].
  split.
  - by rewrite !lookup_insert_ne, lookup_empty.
  - rewrite !lookup_insert_ne by done. by rewrite lookup_insert_eq.
Qed.

Lemma not_a_module_global :
  bool_decide ("normalised_image" ∈ module_globals) = false.
Proof. by vm_compute. Qed.

Lemma Normalise_call_after_selection (s : tensor_sample) (bp : tensor) :
  getitem_0_positive (image s) (mask s) = Ok bp →
  Normalise_call fsqrt s = Raise (NameError "normalised_image").
Proof.
  intros Hget. unfold Normalise_call.
  destruct (Normalise_locals_lookup s bp Hget) as (locals & -> & _ & Hno & _).
  simpl. unfold lookup_name. by rewrite Hno, not_a_module_global.
Qed.

Lemma Normalise_call_never_returns (s : tensor_sample) :
  ∃ e, Normalise_call fsqrt s = Raise e.
Proof.
  destruct (getitem_0_positive (image s) (mask s)) as [bp | e] eqn:Hget.
  - eexists. by eapply Normalise_call_after_selection.
  - exists e. unfold Normalise_call, Normalise_locals. by rewrite Hget.
Qed.

Lemma Compose_call_never_returns (self : Compose) (img : Sample pil_image) :
  ∃ e, Compose_call fsqrt resize_bilinear self img = Raise e.
Proof.
  unfold Compose_call.
  destruct (Rescale_call _ _ _) as [s1 | e]; simpl; [| by exists e].
  destruct (Normalise_call_never_returns
              {| image := to_tensor (image s1);
                 mask := squeeze (to_tensor (mask s1)) |}) as [e ->].
  by exists e.
Qed.

Lemma Rescale_call_pair (w h : Z) (s : Sample pil_image) :
  (0 < w)%Z → (0 < h)%Z →
  Rescale_call resize_bilinear {| output_size := SizePair w h |} s
  = Ok {| image := resize_bilinear (Z.to_nat w) (Z.to_nat h) (image s);
          mask := pil_resize_nearest (Z.to_nat w) (Z.to_nat h) (mask s) |}.
Proof.
  intros Hw Hh. unfold Rescale_call, Image_resize.
  cbn [output_size]. rewrite !decide_True by done. reflexivity.
Qed.

Lemma Compose_call_NameError (w h : Z) (clip : ClipAndRescale)
    (p : pil_image) (mk : img byte) :
  (∀ w h q, pil_size (resize_bilinear w h q) = (w, h)) →
  (1 < w)%Z → (1 < h)%Z →
  Compose_call fsqrt resize_bilinear
    {| transform_Rescale := {| output_size := SizePair w h |};
       transform_ClipAndRescale := clip |}
    {| image := p; mask := L mk |}
  = Raise (NameError "normalised_image").
Proof.
  intros Hsize Hw Hh. unfold Compose_call.
  cbn [transform_Rescale transform_ClipAndRescale].
  rewrite Rescale_call_pair by lia.
  cbn [mbind result_bind image mask pil_resize_nearest].
  unfold ToTensor_call. cbn [mbind result_bind image mask].
  assert (Z.to_nat w ≠ 1%nat) as Hw' by lia.
  assert (Z.to_nat h ≠ 1%nat) as Hh' by lia.
  revert Hw' Hh'. generalize (Z.to_nat w) (Z.to_nat h). intros w' h' Hw' Hh'.
  destruct (to_tensor_shape (resize_bilinear w' h' p) w' h' (Hsize _ _ _))
    as (c & Hc & Hshape).
  destruct (getitem_0_positive_shapes
              (to_tensor (resize_bilinear w' h' p))
              (squeeze (to_tensor (L (resize_nearest w' h' mk))))
              c [h'; w'] Hshape Hc) as [bp Hget].
  { by apply squeeze_mask_shape. }
  by rewrite (Normalise_call_after_selection
                {| image := to_tensor (resize_bilinear w' h' p);
                   mask := squeeze (to_tensor (L (resize_nearest w' h' mk))) |}
                bp Hget).
Qed.

(** The transform that [get_transform] builds, on an image of any mode and
    a greyscale mask. *)
Lemma get_transform_NameError (p : pil_image) (mk : img byte) :
  (∀ w h q, pil_size (resize_bilinear w h q) = (w, h)) →
  ∃ self, get_transform = Ok self ∧
          Compose_call fsqrt resize_bilinear self {| image := p; mask := L mk |}
          = Raise (NameError "normalised_image").
Proof.
  intros Hsize. eexists. split; [reflexivity |].
  by apply Compose_call_NameError.
Qed.

(** C3. Whenever the selection of line 13 succeeds (it does for an image of
    shape [(C, H, W)], [C > 0], and a mask of shape [(H, W)]),
    [Normalise.__call__] raises [NameError] for [normalised_image], and no
    call of it returns.  So the transform of [get_transform] raises that
    [NameError] on every image with a greyscale mask (provided the bilinear
    resampling yields the size it is asked for), and no composed call
    returns. *)
Theorem Normalise_call_NameError (s : tensor_sample) (brain_pixels : tensor)
    (p : pil_image) (mk : img byte) :
  getitem_0_positive (image s) (mask s) = Ok brain_pixels →
  (∀ w h q, pil_size (resize_bilinear w h q) = (w, h)) →
  Normalise_call fsqrt s = Raise (NameError "normalised_image") ∧
  (∀ s0, ∃ e, Normalise_call fsqrt s0 = Raise e) ∧
  (∃ self, get_transform = Ok self ∧
           Compose_call fsqrt resize_bilinear self
             {| image := p; mask := L mk |}
           = Raise (NameError "normalised_image")) ∧
  (∀ self img, ∃ e, Compose_call fsqrt resize_bilinear self img = Raise e).
Proof.
  intros Hget Hsize. split; [by eapply Normalise_call_after_selection |].
  split; [apply Normalise_call_never_returns |].
  split; [by apply get_transform_NameError |].
  apply Compose_call_never_returns.
Qed.

(** C6, amended. For a sample whose mask is entirely zero, or whose
    foreground standard deviation is 0, [Normalise.__call__] divides all the
    same: no element of the image it computes is finite (all are [nan] when
    the mask is entirely zero), and the call does not fail with
    [DegenerateStatisticsError]. *)
Theorem Normalise_degenerate (s : tensor_sample) (brain_pixels : tensor) :
  getitem_0_positive (image s) (mask s) = Ok brain_pixels →
  Forall (λ m, m = Fin 0) (data (mask s)) ∨
    ndarray_std fsqrt brain_pixels = Fin 0 →
  ∃ locals Normalised_image,
    Normalise_locals fsqrt s = Ok locals ∧
    locals !! "Normalised_image" = Some (VTensor Normalised_image) ∧
    shape Normalised_image = shape (image s) ∧
    length (data Normalised_image) = length (data (image s)) ∧
    Forall (λ y, ∀ q, y ≠ Fin q) (data Normalised_image) ∧
    (Forall (λ m, m = Fin 0) (data (mask s)) →
     Forall (λ y, y = NaN) (data Normalised_image)) ∧
    Normalise_call fsqrt s ≠ Raise DegenerateStatisticsError.
Proof.
  intros Hget Hdeg.
  destruct (Normalise_locals_lookup s _ Hget) as (locals & Hl & Hn & _).
  exists locals. eexists. split; [done |]. split; [done |].
  split; [done |]. split; [by simpl; rewrite length_fmap |].
  assert (Forall (λ m, m = Fin 0) (data (mask s)) →
          Forall (λ y, y = NaN)
            (data (tensor_map
                     (λ x, num_div (num_sub x (ndarray_mean brain_pixels))
                                   (ndarray_std fsqrt brain_pixels))
                     (image s)))) as Hnan.
  { intros Hzero. simpl. apply Forall_fmap, Forall_true. intros x. simpl.
    pose proof (getitem_0_positive_empty _ _ _ Hzero Hget) as Hbp.
    by rewrite (ndarray_mean_empty _ Hbp), num_sub_NaN. }
  split; [| split; [done |]].
  - destruct Hdeg as [Hzero | Hstd].
    + eapply Forall_impl; [by apply Hnan |]. by intros y ->.
    + simpl. apply Forall_fmap, Forall_true. intros x q. simpl.
      rewrite Hstd. apply num_div_zero_not_finite.
  - by rewrite (Normalise_call_after_selection s _ Hget).
Qed.
End normalise.

(** C6, as stated, fails: a sample without foreground and a sample with a
    constant foreground both make [Normalise.__call__] fail with [NameError],
    after a division that yields [nan] and [inf]. *)
Lemma Normalise_degenerate_counterexample :
  (Normalise_call sqrt_on_squares empty_foreground_sample
   = Raise (NameError "normalised_image") ∧
   (locals ← Normalise_locals sqrt_on_squares empty_foreground_sample;
    Ok (locals !! "Normalised_image"))
   = Ok (Some (VTensor (Tensor [1; 1; 2]%nat [NaN; NaN])))) ∧
  (Normalise_call sqrt_on_squares constant_foreground_sample
   = Raise (NameError "normalised_image") ∧
   (locals ← Normalise_locals sqrt_on_squares constant_foreground_sample;
    Ok (locals !! "Normalised_image"))
   = Ok (Some (VTensor (Tensor [2; 1; 2]%nat [NaN; NaN; PInf; NInf])))) ∧
  NameError "normalised_image" ≠ DegenerateStatisticsError.
Proof. repeat split; by vm_compute. Qed.

(** ** What [Normalise.__call__] computes before it fails *)

Lemma select_singletons (ms l : list num) :
  (length ms ≤ length l)%nat →
  mjoin (zip_with (λ x block, if num_is_pos x then block else [])
                  ms (chunks (length ms) 1 l))
  = (filter (λ p, num_is_pos p.2 = true) (zip l ms)).*1.
Proof.
  revert l. induction ms as [| m ms IH]; intros [| x l] Hlen; simpl in *;
    [done | done | lia |].
  rewrite drop_0, filter_cons; simpl. rewrite IH by lia.
  by destruct (num_is_pos m).
Qed.

(** The selection of line 13 is the foreground of the specification. *)
Lemma getitem_0_positive_foreground (C H W : nat) (s : tensor_sample) :
  sample_wf C H W s → (0 < C)%nat →
  getitem_0_positive (image s) (mask s)
  = Ok (Tensor [length (filter (λ x, num_is_pos x = true) (data (mask s)))]
               (foreground s)).
Proof.
  intros (Hi & Hm & Hwi & Hwm) HC. unfold getitem_0_positive, foreground.
  unfold tensor_wf in *. rewrite Hi, Hm in *. cbn [length take drop].
  rewrite decide_False by lia. rewrite decide_True by done.
  change (numel []) with 1%nat. rewrite <- Hwm.
  rewrite select_singletons; [done |].
  rewrite Hwm, Hwi. simpl. nia.
Qed.

Section normalise_result.
Variable fsqrt : Qc → Qc.

(** C2 describes what lines 13-17 compute, not what the call does: for an
    image of shape [(C, H, W)], [C > 0], and a mask of shape [(H, W)], the
    local [Normalised_image] holds [(image - mean) / std] in every channel,
    with the mean and the standard deviation of the foreground of channel 0,
    and [mask] holds the mask; line 18 then raises [NameError] and nothing
    is returned. *)
Theorem Normalise_call_computes_then_fails (C H W : nat) (s : tensor_sample) :
  sample_wf C H W s → (0 < C)%nat →
  ∃ locals n,
    let brain_pixels := Tensor [n] (foreground s) in
    Normalise_locals fsqrt s = Ok locals ∧
    locals !! "Normalised_image"
    = Some (VTensor (tensor_map
                       (λ x, num_div (num_sub x (ndarray_mean brain_pixels))
                                     (ndarray_std fsqrt brain_pixels))
                       (image s))) ∧
    locals !! "mask" = Some (VTensor (mask s)) ∧
    Normalise_call fsqrt s = Raise (NameError "normalised_image").
Proof.
  intros Hwf HC.
  pose proof (getitem_0_positive_foreground C H W s Hwf HC) as Hget.
  destruct (Normalise_locals_lookup fsqrt s _ Hget)
    as (locals & Hl & Hn & _ & Hm).
  exists locals. eexists. simpl. split; [done |]. split; [done |].
  split; [done |]. by eapply Normalise_call_after_selection.
Qed.
End normalise_result.

Lemma lesion_tensors_wf : sample_wf 3 2 2 lesion_tensors.
Proof. by repeat split. Qed.

(** The call on the tensors of [lesion_sample]: the foreground is 1/5 and
    3/5, its mean 2/5 and its standard deviation 1/5. *)
Lemma Normalise_call_computes_then_fails_witness :
  ∃ locals n,
    let brain_pixels := Tensor [n] (foreground lesion_tensors) in
    Normalise_locals sqrt_on_squares lesion_tensors = Ok locals ∧
    locals !! "Normalised_image"
    = Some (VTensor (tensor_map
                       (λ x, num_div (num_sub x (ndarray_mean brain_pixels))
                                     (ndarray_std sqrt_on_squares
                                        brain_pixels))
                       (image lesion_tensors))) ∧
    locals !! "mask" = Some (VTensor (mask lesion_tensors)) ∧
    Normalise_call sqrt_on_squares lesion_tensors
    = Raise (NameError "normalised_image").
Proof.
  apply (Normalise_call_computes_then_fails sqrt_on_squares 3 2 2
           lesion_tensors).
  - exact lesion_tensors_wf.
  - lia.
Defined.

Example Normalise_call_lesion :
  foreground lesion_tensors = [Fin (1 / Qc_of_Z 5); Fin (Qc_of_Z 3 / Qc_of_Z 5)] ∧
  (locals ← Normalise_locals sqrt_on_squares lesion_tensors;
   Ok (locals !! "Normalised_image"))
  = Ok (Some (VTensor lesion_normalised)) ∧
  Normalise_call sqrt_on_squares lesion_tensors
  = Raise (NameError "normalised_image").
Proof. repeat split; by_evaluation. Qed.

(** Evaluations of the theorems above on the concrete samples. *)

Lemma pil_resize_nearest_size (w h : nat) (p : pil_image) :
  pil_size (pil_resize_nearest w h p) = (w, h).
Proof. by destruct p. Qed.

Lemma Normalise_call_NameError_witness :
  Normalise_call sqrt_on_squares lesion_tensors
  = Raise (NameError "normalised_image") ∧
  (∀ s0, ∃ e, Normalise_call sqrt_on_squares s0 = Raise e) ∧
  (∃ self, get_transform = Ok self ∧
           Compose_call sqrt_on_squares pil_resize_nearest self
             {| image := RGB lesion_image; mask := L lesion_mask |}
           = Raise (NameError "normalised_image")) ∧
  (∀ self img,
     ∃ e, Compose_call sqrt_on_squares pil_resize_nearest self img = Raise e).
Proof.
  apply (Normalise_call_NameError sqrt_on_squares pil_resize_nearest
           lesion_tensors
           (Tensor [2%nat] [Fin (1 / Qc_of_Z 5); Fin (Qc_of_Z 3 / Qc_of_Z 5)])
           (RGB lesion_image) lesion_mask).
  - by_evaluation.
  - exact pil_resize_nearest_size.
Defined.

Lemma Normalise_degenerate_witness :
  ∃ locals Normalised_image,
    Normalise_locals sqrt_on_squares empty_foreground_sample = Ok locals ∧
    locals !! "Normalised_image" = Some (VTensor Normalised_image) ∧
    shape Normalised_image = shape (image empty_foreground_sample) ∧
    length (data Normalised_image)
    = length (data (image empty_foreground_sample)) ∧
    Forall (λ y, ∀ q, y ≠ Fin q) (data Normalised_image) ∧
    (Forall (λ m, m = Fin 0) (data (mask empty_foreground_sample)) →
     Forall (λ y, y = NaN) (data Normalised_image)) ∧
    Normalise_call sqrt_on_squares empty_foreground_sample
    ≠ Raise DegenerateStatisticsError.
Proof.
  apply (Normalise_degenerate sqrt_on_squares empty_foreground_sample
           (Tensor [0%nat] [])).
  - reflexivity.
  - left. repeat constructor.
Defined.

(** Pixel (0, 1) of [lesion_sample]: the bands 153, 10 and 20 and the mask
    label 3 become 153/255, 10/255, 20/255 and 3/255. *)
Lemma ToTensor_call_spec_witness :
  ∃ s', ToTensor_call lesion_sample = Ok s' ∧
        shape (image s') = [3; 2; 2]%nat ∧
        at3 (image s') 0 0 1 = Some (Fin (Qc_of_Z 153 / Qc_of_Z 255)) ∧
        at3 (image s') 1 0 1 = Some (Fin (Qc_of_Z 10 / Qc_of_Z 255)) ∧
        at3 (image s') 2 0 1 = Some (Fin (Qc_of_Z 20 / Qc_of_Z 255)) ∧
        in_range 0 1 (Fin (Qc_of_Z 153 / Qc_of_Z 255)) ∧
        in_range 0 1 (Fin (Qc_of_Z 10 / Qc_of_Z 255)) ∧
        in_range 0 1 (Fin (Qc_of_Z 20 / Qc_of_Z 255)) ∧
        shape (mask s') = [2; 2]%nat ∧
        at2 (mask s') 0 1 = Some (Fin (Qc_of_Z 3 / Qc_of_Z 255)) ∧
        (Fin (Qc_of_Z 3 / Qc_of_Z 255) = Fin 0 ↔ "003"%byte = "000"%byte) ∧
        (num_is_pos (Fin (Qc_of_Z 3 / Qc_of_Z 255)) = true
         ↔ "003"%byte ≠ "000"%byte).
Proof.
  apply (ToTensor_call_spec lesion_image lesion_mask 2 2 0 1
           "153" "010" "020" "003").
  - repeat split; simpl; lia.
  - repeat split; simpl; lia.
  - reflexivity.
  - reflexivity.
  - reflexivity.
  - reflexivity.
  - lia.
  - lia.
  - lia.
  - reflexivity.
  - reflexivity.
Defined.

Lemma Rescale_call_mask_labels_witness :
  labels (pil_resize_nearest 3 5 (L lesion_mask)) ⊆ labels (L lesion_mask).
Proof.
  apply (Rescale_call_mask_labels pil_resize_nearest
           {| output_size := SizePair 3 5 |} lesion_sample
           {| image := pil_resize_nearest 3 5 (RGB lesion_image);
              mask := pil_resize_nearest 3 5 (L lesion_mask) |}).
  reflexivity.
Defined.

(** ** The calls on the object store *)

(** Unfolding of the store operations of a call. *)
Ltac run_store :=
  unfold mbind, mret, stateful_bind, stateful_ret, get_pil, get_tensor,
    new_pil, new_tensor, set_tensor, raise_or; simpl.

Lemma stateful_bind_run {A B} (m : stateful A) (f : A → stateful B)
    (σ : store) :
  (m ≫= f) σ
  = match m σ with
    | (σ', Ok a) => f a σ'
    | (σ', Raise e) => (σ', Raise e)
    end.
Proof. done. Qed.

Lemma extends_trans (σ1 σ2 σ3 : store) :
  extends σ1 σ2 → extends σ2 σ3 → extends σ1 σ3.
Proof. intros [? ?] [? ?]. split; by etrans. Qed.

Lemma prefix_lookup_total `{!Inhabited A} (l1 l2 : list A) (i : nat) :
  l1 `prefix_of` l2 → (i < length l1)%nat → l2 !!! i = l1 !!! i.
Proof. intros [k ->] Hi. by apply lookup_total_app_l. Qed.

Lemma extends_pil_contents (σ σ' : store) (s : Sample nat) :
  extends σ σ' → valid_pil σ s → pil_contents σ' s = pil_contents σ s.
Proof.
  intros [Hp _] [Hi Hm]. unfold pil_contents.
  by rewrite !(prefix_lookup_total _ _ _ Hp).
Qed.

Lemma extends_tensor_contents (σ σ' : store) (s : Sample nat) :
  extends σ σ' → valid_tensor σ s →
  tensor_contents σ' s = tensor_contents σ s.
Proof.
  intros [_ Ht] [Hi Hm]. unfold tensor_contents.
  by rewrite !(prefix_lookup_total _ _ _ Ht).
Qed.

Lemma ToTensor_call_st_spec (s : Sample nat) (σ : store) :
  let run := ToTensor_call_st s σ in
  extends σ run.1 ∧
  ∃ refs, run.2 = Ok refs ∧ valid_tensor run.1 refs ∧
          ToTensor_call (pil_contents σ s) = Ok (tensor_contents run.1 refs).
Proof.
  unfold ToTensor_call_st, ToTensor_call, extends, valid_tensor,
    tensor_contents; simpl.
  split.
  - split; [done |]. rewrite <- app_assoc. by apply prefix_app_r.
  - eexists. split; [done |]. simpl. rewrite !length_app; simpl.
    split; [lia |]. f_equal. f_equal.
    + rewrite lookup_total_app_l by (rewrite length_app; simpl; lia).
      by rewrite list_lookup_total_middle.
    + replace (length (tensor_objects σ) + 1)%nat
        with (length (tensor_objects σ ++ [to_tensor (pil_objects σ !!! image s)]))
        by (rewrite length_app; simpl; lia).
      by rewrite list_lookup_total_middle.
Qed.

Lemma ClipAndRescale_call_st_spec (self : ClipAndRescale) (s : Sample nat)
    (σ : store) :
  valid_tensor σ s →
  let run := ClipAndRescale_call_st self s σ in
  extends σ run.1 ∧
  match ClipAndRescale_call self (tensor_contents σ s) with
  | Ok s' => ∃ refs, run.2 = Ok refs ∧ tensor_contents run.1 refs = s' ∧
                     mask refs = mask s ∧
                     image refs = length (tensor_objects σ)
  | Raise e => run.2 = Raise e
  end.
Proof.
  intros [Hi Hm].
  unfold ClipAndRescale_call_st, ClipAndRescale_call, extends,
    tensor_contents; run_store.
  rewrite list_lookup_total_middle by done.
  destruct (expand_as _ _) as [expanded_mask | e]; simpl.
  - split.
    + split; [done |].
      rewrite <- (Nat.add_0_r (length (tensor_objects σ))), insert_app_r.
      by apply prefix_app_r.
    + eexists. split; [done |]. simpl. split; [| done]. f_equal.
      * apply list_lookup_total_insert_eq. rewrite length_app; simpl; lia.
      * rewrite list_lookup_total_insert_ne by lia.
        by rewrite lookup_total_app_l.
  - split; [| done]. split; [done |]. by apply prefix_app_r.
Qed.

(** The last transform alone, which writes in place: a second call on the
    same tensors returns the tensors of the first. *)
Lemma ClipAndRescale_call_st_repeatable (self : ClipAndRescale)
    (s : Sample nat) (σ : store) :
  valid_tensor σ s →
  let run1 := ClipAndRescale_call_st self s σ in
  let run2 := ClipAndRescale_call_st self s run1.1 in
  outcome run2 = outcome run1 ∧
  outcome run1 = ClipAndRescale_call self (tensor_contents σ s).
Proof.
  intros Hvalid run1 run2.
  destruct (ClipAndRescale_call_st_spec self s σ Hvalid) as [Hext1 Hrun1].
  fold run1 in Hext1, Hrun1.
  assert (valid_tensor run1.1 s) as Hvalid1.
  { destruct Hext1 as [_ Hp]. apply prefix_length in Hp.
    destruct Hvalid. split; lia. }
  destruct (ClipAndRescale_call_st_spec self s run1.1 Hvalid1) as [_ Hrun2].
  fold run2 in Hrun2.
  rewrite (extends_tensor_contents _ _ _ Hext1 Hvalid) in Hrun2.
  assert (∀ run, match ClipAndRescale_call self (tensor_contents σ s) with
                 | Ok s' => ∃ refs, run.2 = Ok refs ∧
                     tensor_contents run.1 refs = s' ∧ mask refs = mask s ∧
                     image refs = length (tensor_objects σ)
                 | Raise e => run.2 = Raise e
                 end →
                 outcome run = ClipAndRescale_call self (tensor_contents σ s))
    as Hout.
  { intros run Hrun. unfold outcome.
    destruct (ClipAndRescale_call self _); [| by rewrite Hrun].
    by destruct Hrun as (refs & -> & -> & _). }
  split; [| by apply Hout].
  rewrite (Hout run1 Hrun1). unfold outcome.
  destruct (ClipAndRescale_call self _); [| by rewrite Hrun2].
  by destruct Hrun2 as (refs & -> & -> & _).
Qed.

Section calls_on_the_store.
Variable fsqrt : Qc → Qc.
Variable resize_bilinear : nat → nat → pil_image → pil_image.

Lemma Rescale_call_st_spec (self : Rescale) (s : Sample nat) (σ : store) :
  let run := Rescale_call_st resize_bilinear self s σ in
  extends σ run.1 ∧
  match Rescale_call resize_bilinear self (pil_contents σ s) with
  | Ok s' => ∃ refs, run.2 = Ok refs ∧ pil_contents run.1 refs = s'
  | Raise e => run.2 = Raise e
  end.
Proof.
  unfold Rescale_call_st, Rescale_call, extends, pil_contents; run_store.
  destruct (Image_resize _ _ BILINEAR _) as [image' | e]; simpl;
    [| by split].
  destruct (Image_resize _ _ NEAREST _) as [mask' | e]; simpl.
  - split.
    + split; [| done]. rewrite <- app_assoc. by apply prefix_app_r.
    + eexists. split; [done |]. simpl. f_equal.
      * rewrite lookup_total_app_l by (rewrite length_app; simpl; lia).
        by rewrite list_lookup_total_middle.
      * by rewrite list_lookup_total_middle.
  - split; [| done]. split; [| done]. by apply prefix_app_r.
Qed.

Lemma Normalise_call_st_spec (s : Sample nat) (σ : store) :
  let run := Normalise_call_st fsqrt s σ in
  run.1 = σ ∧
  ∃ e, run.2 = Raise e ∧ Normalise_call fsqrt (tensor_contents σ s) = Raise e.
Proof.
  unfold Normalise_call_st; run_store.
  destruct (Normalise_call_never_returns fsqrt (tensor_contents σ s))
    as [e He].
  unfold tensor_contents in He. rewrite He; simpl. split; [done |].
  by exists e.
Qed.

(** The composed call on the store keeps every object of the store and
    yields what the composed call on the contents yields. *)
Lemma Compose_call_st_refines (self : Compose) (img : Sample nat) (σ : store) :
  let run := Compose_call_st fsqrt resize_bilinear self img σ in
  extends σ run.1 ∧
  outcome run = Compose_call fsqrt resize_bilinear self (pil_contents σ img).
Proof.
  cbv zeta. unfold Compose_call_st, Compose_call, outcome.
  pose proof (Rescale_call_st_spec (transform_Rescale self) img σ) as Hrun1.
  cbv zeta in Hrun1. rewrite stateful_bind_run.
  destruct (Rescale_call_st _ _ _ σ) as [σ1 r1].
  destruct Hrun1 as [Hext1 Hrun1]. simpl in Hext1, Hrun1.
  destruct (Rescale_call _ _ _) as [s1 | e]; simpl in *;
    [| by rewrite Hrun1].
  destruct Hrun1 as (refs1 & -> & <-).
  pose proof (ToTensor_call_st_spec refs1 σ1) as Hrun2.
  cbv zeta in Hrun2. rewrite stateful_bind_run.
  destruct (ToTensor_call_st refs1 σ1) as [σ2 r2].
  destruct Hrun2 as (Hext2 & refs2 & Hr2 & _ & Hrun2). simpl in *.
  subst r2. injection Hrun2 as -> ->.
  pose proof (Normalise_call_st_spec refs2 σ2) as Hrun3.
  cbv zeta in Hrun3. rewrite stateful_bind_run.
  destruct (Normalise_call_st fsqrt refs2 σ2) as [σ3 r3].
  destruct Hrun3 as (Hσ3 & e & Hr3 & Hpure). simpl in *.
  subst σ3 r3. unfold tensor_contents in Hpure. rewrite Hpure. simpl.
  split; [| done]. by eapply extends_trans.
Qed.

(** [Rescale] then [ToTensor], the transforms a composed call goes through
    before [Normalise]: on the store they keep every object and return the
    tensors that the two calls return on the contents. *)
Lemma Rescale_ToTensor_st_refines (self : Rescale) (img : Sample nat)
    (σ : store) :
  let run :=
    (s ← Rescale_call_st resize_bilinear self img; ToTensor_call_st s) σ in
  extends σ run.1 ∧
  outcome run
  = (s ← Rescale_call resize_bilinear self (pil_contents σ img);
     ToTensor_call s).
Proof.
  cbv zeta. unfold outcome.
  pose proof (Rescale_call_st_spec self img σ) as Hrun1.
  cbv zeta in Hrun1. rewrite stateful_bind_run.
  destruct (Rescale_call_st _ _ _ σ) as [σ1 r1].
  destruct Hrun1 as [Hext1 Hrun1]. simpl in Hext1, Hrun1.
  destruct (Rescale_call _ _ _) as [s1 | e]; simpl in *;
    [| by rewrite Hrun1].
  destruct Hrun1 as (refs1 & -> & <-).
  pose proof (ToTensor_call_st_spec refs1 σ1) as Hrun2.
  cbv zeta in Hrun2.
  destruct (ToTensor_call_st refs1 σ1) as [σ2 r2].
  destruct Hrun2 as (Hext2 & refs2 & Hr2 & _ & Hrun2). simpl in *.
  subst r2. split; [by eapply extends_trans | done].
Qed.

(** C10. Two calls of the composed transform on the same sample, one after
    the other, yield the same: the first call leaves the objects of the
    sample, and every other object that existed before it, as they were.
    So do the transforms it is composed of.  [Rescale] then [ToTensor],
    called twice on the sample, return the same tensors, those of the calls
    on the contents of the sample.  [ClipAndRescale], the one transform that
    writes in place, called twice on the same tensors, returns the same
    tensors, and leaves the tensors it is given, and every other object, as
    they were. *)
Theorem Compose_call_deterministic (self : Compose) (img : Sample nat)
    (σ : store) :
  valid_pil σ img →
  let run1 := Compose_call_st fsqrt resize_bilinear self img σ in
  let run2 := Compose_call_st fsqrt resize_bilinear self img run1.1 in
  let tensorize : stateful (Sample nat) :=
    s ← Rescale_call_st resize_bilinear (transform_Rescale self) img;
    ToTensor_call_st s in
  (outcome run2 = outcome run1 ∧
   pil_contents run1.1 img = pil_contents σ img ∧
   extends σ run1.1) ∧
  (outcome (tensorize (tensorize σ).1) = outcome (tensorize σ) ∧
   outcome (tensorize σ)
   = (s ← Rescale_call resize_bilinear (transform_Rescale self)
            (pil_contents σ img);
      ToTensor_call s) ∧
   pil_contents (tensorize σ).1 img = pil_contents σ img ∧
   extends σ (tensorize σ).1) ∧
  (∀ (t : Sample nat) (τ : store),
     valid_tensor τ t →
     let last1 := ClipAndRescale_call_st (transform_ClipAndRescale self) t τ in
     let last2 :=
       ClipAndRescale_call_st (transform_ClipAndRescale self) t last1.1 in
     outcome last2 = outcome last1 ∧
     outcome last1
     = ClipAndRescale_call (transform_ClipAndRescale self)
         (tensor_contents τ t) ∧
     tensor_contents last1.1 t = tensor_contents τ t ∧
     extends τ last1.1).
Proof.
  intros Hvalid run1 run2 tensorize. split; [| split].
  - destruct (Compose_call_st_refines self img σ) as [Hext1 Hrun1].
    destruct (Compose_call_st_refines self img run1.1) as [_ Hrun2].
    fold run1 in Hext1, Hrun1, Hrun2. fold run2 in Hrun2.
    pose proof (extends_pil_contents _ _ _ Hext1 Hvalid) as Hsame.
    split; [| done]. by rewrite Hrun2, Hsame.
  - destruct (Rescale_ToTensor_st_refines (transform_Rescale self) img σ)
      as [Hext1 Hrun1].
    destruct (Rescale_ToTensor_st_refines (transform_Rescale self) img
                (tensorize σ).1) as [_ Hrun2].
    fold tensorize in Hext1, Hrun1, Hrun2.
    pose proof (extends_pil_contents _ _ _ Hext1 Hvalid) as Hsame.
    split; [by rewrite Hrun2, Hsame |].
    split; [exact Hrun1 |]. split; [exact Hsame | exact Hext1].
  - intros t τ Hvalid_t last1 last2.
    destruct (ClipAndRescale_call_st_repeatable
                (transform_ClipAndRescale self) t τ Hvalid_t)
      as [Hsame Hpure].
    destruct (ClipAndRescale_call_st_spec
                (transform_ClipAndRescale self) t τ Hvalid_t) as [Hext _].
    fold last1 in Hext.
    split; [exact Hsame |]. split; [exact Hpure |].
    split; [by apply extends_tensor_contents | exact Hext].
Qed.
End calls_on_the_store.

(** Two calls on [lesion_sample] held in [lesion_store]; and two calls of
    the default [ClipAndRescale] on the tensors of [two_channel_sample] held
    in it, which both return [two_channel_result]. *)
Lemma Compose_call_deterministic_witness :
  let self := {| transform_Rescale := {| output_size := SizePair 3 5 |};
                 transform_ClipAndRescale := default_stage |} in
  let run1 :=
    Compose_call_st sqrt_on_squares pil_resize_nearest self lesion_refs
      lesion_store in
  let run2 :=
    Compose_call_st sqrt_on_squares pil_resize_nearest self lesion_refs
      run1.1 in
  let tensorize : stateful (Sample nat) :=
    s ← Rescale_call_st pil_resize_nearest (transform_Rescale self)
          lesion_refs;
    ToTensor_call_st s in
  let last1 := ClipAndRescale_call_st default_stage lesion_refs lesion_store in
  let last2 := ClipAndRescale_call_st default_stage lesion_refs last1.1 in
  (outcome run2 = outcome run1 ∧
   pil_contents run1.1 lesion_refs = pil_contents lesion_store lesion_refs ∧
   extends lesion_store run1.1) ∧
  (outcome (tensorize (tensorize lesion_store).1)
   = outcome (tensorize lesion_store) ∧
   outcome (tensorize lesion_store)
   = Ok {| image := to_tensor (pil_resize_nearest 3 5 (RGB lesion_image));
           mask := squeeze (to_tensor
                              (pil_resize_nearest 3 5 (L lesion_mask))) |}) ∧
  (outcome last2 = outcome last1 ∧
   outcome last1 = Ok two_channel_result ∧
   tensor_contents last1.1 lesion_refs = two_channel_sample).
Proof.
  intros self run1 run2 tensorize last1 last2.
  assert (valid_pil lesion_store lesion_refs) as Hpil by (split; simpl; lia).
  assert (valid_tensor lesion_store lesion_refs) as Hten
    by (split; simpl; lia).
  destruct (Compose_call_deterministic sqrt_on_squares pil_resize_nearest
              self lesion_refs lesion_store Hpil)
    as (Hwhole & (Hsame & Hpure & _) & Hlast).
  destruct (Hlast lesion_refs lesion_store Hten)
    as (Hsame' & Hpure' & Hkept & _).
  split; [exact Hwhole |]. split.
  - split; [exact Hsame |]. etrans; [exact Hpure |]. reflexivity.
  - split; [exact Hsame' |]. split.
    + etrans; [exact Hpure' |]. exact two_channel_call.
    + etrans; [exact Hkept |]. reflexivity.
Defined.

(** * Further properties *)

(** ** File names *)

Lemma app_String (c : Ascii.ascii) (s t : string) :
  String c s +:+ t = String c (s +:+ t).
Proof. done. Qed.

Lemma app_empty_l (s : string) : "" +:+ s = s.
Proof. done. Qed.

Lemma app_empty_r (s : string) : s +:+ "" = s.
Proof. induction s as [| c s IH]; [done |]. by rewrite app_String, IH. Qed.

Lemma app_assoc_string (s t u : string) : (s +:+ t) +:+ u = s +:+ (t +:+ u).
Proof. induction s as [| c s IH]; [done |]. by rewrite !app_String, IH. Qed.

Lemma list_ascii_of_string_app (s t : string) :
  String.list_ascii_of_string (s +:+ t)
  = String.list_ascii_of_string s ++ String.list_ascii_of_string t.
Proof.
  induction s as [| c s IH]; [done |]. rewrite app_String. simpl. by rewrite IH.
Qed.

Lemma string_of_list_ascii_app (k l : list Ascii.ascii) :
  String.string_of_list_ascii (k ++ l)
  = String.string_of_list_ascii k +:+ String.string_of_list_ascii l.
Proof.
  induction k as [| c k IH]; [done |]. simpl. by rewrite IH, app_String.
Qed.

Lemma endswith_spec (s suffix : string) :
  endswith s suffix = true ↔ ∃ stem, s = stem +:+ suffix.
Proof.
  unfold endswith. rewrite bool_decide_eq_true. split.
  - intros [k Hk]. exists (String.string_of_list_ascii k).
    rewrite <- (String.string_of_list_ascii_of_string s), Hk.
    by rewrite string_of_list_ascii_app, String.string_of_list_ascii_of_string.
  - intros [stem ->]. exists (String.list_ascii_of_string stem).
    apply list_ascii_of_string_app.
Qed.

Lemma replace_from_extension (new stem rest : string) :
  "."%char ∉ String.list_ascii_of_string stem →
  replace_from ".jpg" new 0 (stem +:+ ".jpg" +:+ rest)
  = stem +:+ new +:+ replace_from ".jpg" new 0 rest.
Proof.
  induction stem as [| c stem IH]; intros Hdot.
  - rewrite !app_empty_l. destruct rest; reflexivity.
  - rewrite !app_String. simpl in Hdot.
    apply not_elem_of_cons in Hdot as [Hc Hdot].
    cbn [replace_from String.prefix].
    destruct (Ascii.ascii_dec "." c) as [Heq | _]; [by destruct Hc |].
    f_equal. by apply IH.
Qed.

(** X3. [f.replace('.jpg', '_superpixels.png')] replaces every occurrence of
    [.jpg], not only the extension: on a name that starts with a part
    without a dot, then [.jpg], the part is kept, [.jpg] becomes the new
    text, and the rest of the name is treated in the same way; so a name
    [stem.jpg] with no dot in [stem] becomes [stem] followed by the new
    text. *)
Theorem str_replace_extension (new stem rest : string) :
  "."%char ∉ String.list_ascii_of_string stem →
  str_replace (stem +:+ ".jpg" +:+ rest) ".jpg" new
  = stem +:+ new +:+ str_replace rest ".jpg" new ∧
  str_replace (stem +:+ ".jpg") ".jpg" new = stem +:+ new.
Proof.
  intros Hdot. unfold str_replace. split.
  - by apply replace_from_extension.
  - pose proof (replace_from_extension new stem "" Hdot) as Hrep.
    change (".jpg" +:+ "") with ".jpg" in Hrep.
    change (replace_from ".jpg" new 0 "") with "" in Hrep.
    by rewrite app_empty_r in Hrep.
Qed.

Lemma str_replace_extension_witness :
  str_replace ("ISIC_1" +:+ ".jpg" +:+ ".jpg") ".jpg" "_superpixels.png"
  = "ISIC_1" +:+ "_superpixels.png"
    +:+ str_replace ".jpg" ".jpg" "_superpixels.png" ∧
  str_replace ("ISIC_1" +:+ ".jpg") ".jpg" "_superpixels.png"
  = "ISIC_1" +:+ "_superpixels.png".
Proof.
  apply (str_replace_extension "_superpixels.png" "ISIC_1" ".jpg").
  by_evaluation.
Defined.

(** ** The lists of the dataset *)

Lemma os_path_join_Data (dataset_type : string) :
  dataset_type ∈ dataset_types →
  os_path_join "../../Data" dataset_type = "../../Data/" +:+ dataset_type.
Proof.
  unfold dataset_types. rewrite !elem_of_cons, elem_of_nil.
  by intros [-> | [-> | [-> | []]]].
Qed.

Lemma ISICDataset_init_Done (fs : filesystem) (dataset_type : string)
    (tr : option Compose) (self : ISICDataset) :
  ISICDataset_init fs dataset_type tr = Done self →
  ∃ names,
    dataset_type ∈ dataset_types ∧
    directories fs !! ("../../Data/" +:+ dataset_type) = Some names ∧
    self = {| root_dir := "../../Data/" +:+ dataset_type;
              transform := tr;
              image_list :=
                merge_sort String.le
                  (filter (λ f, endswith f ".jpg" = true) names);
              mask_list :=
                (λ f, str_replace f ".jpg" "_superpixels.png")
                  <$> merge_sort String.le
                        (filter (λ f, endswith f ".jpg" = true) names) |}.
Proof.
  unfold ISICDataset_init, os_listdir.
  destruct (bool_decide_reflect (dataset_type ∈ dataset_types)) as [Hin |];
    [| done].
  rewrite (os_path_join_Data _ Hin).
  destruct (directories fs !! _) as [names |] eqn:Hdir; [| done].
  intros [= <-]. by exists names.
Qed.

(** X1. A dataset that [ISICDataset.__init__] has built reads the directory
    [../../Data/<dataset_type>]; its [image_list] is sorted and holds
    exactly the names of the directory that end in [.jpg], each as often as
    the directory lists it; [mask_list] has the same length, which is the
    length of the dataset. *)
Theorem ISICDataset_init_lists (fs : filesystem) (dataset_type : string)
    (tr : option Compose) (self : ISICDataset) :
  ISICDataset_init fs dataset_type tr = Done self →
  ∃ names,
    directories fs !! ("../../Data/" +:+ dataset_type) = Some names ∧
    root_dir self = "../../Data/" +:+ dataset_type ∧
    Sorted String.le (image_list self) ∧
    image_list self ≡ₚ filter (λ f, endswith f ".jpg" = true) names ∧
    (∀ f, f ∈ image_list self ↔ f ∈ names ∧ ∃ stem, f = stem +:+ ".jpg") ∧
    length (mask_list self) = ISICDataset_len self.
Proof.
  intros (names & _ & Hdir & ->)%ISICDataset_init_Done.
  exists names. unfold ISICDataset_len. simpl.
  split; [done |]. split; [done |].
  split; [apply (Sorted_merge_sort String.le) |].
  split; [apply merge_sort_Permutation |].
  split; [| by rewrite length_fmap].
  intros f. rewrite merge_sort_Permutation, list_elem_of_filter.
  rewrite endswith_spec. tauto.
Qed.

Lemma ISICDataset_init_example (tr : option Compose) :
  ISICDataset_init example_fs "training" tr = Done (example_dataset tr).
Proof. reflexivity. Qed.

Lemma ISICDataset_init_lists_witness :
  ∃ names,
    directories example_fs !! ("../../Data/" +:+ "training") = Some names ∧
    root_dir (example_dataset None) = "../../Data/" +:+ "training" ∧
    Sorted String.le (image_list (example_dataset None)) ∧
    image_list (example_dataset None)
    ≡ₚ filter (λ f, endswith f ".jpg" = true) names ∧
    (∀ f, f ∈ image_list (example_dataset None)
          ↔ f ∈ names ∧ ∃ stem, f = stem +:+ ".jpg") ∧
    length (mask_list (example_dataset None))
    = ISICDataset_len (example_dataset None).
Proof.
  apply (ISICDataset_init_lists example_fs "training" None
           (example_dataset None)).
  reflexivity.
Defined.

(** X2. [ISICDataset.__init__] fails with [AssertionError] exactly when the
    dataset type is none of [training], [validation], [test], whatever the
    file system holds; with one of the three it fails exactly when the
    directory is absent, with [FileNotFoundError] for the directory. *)
Theorem ISICDataset_init_failure (fs : filesystem) (dataset_type : string)
    (tr : option Compose) :
  (ISICDataset_init fs dataset_type tr = Failed (Builtin AssertionError)
   ↔ dataset_type ∉ dataset_types) ∧
  (dataset_type ∈ dataset_types →
   match directories fs !! ("../../Data/" +:+ dataset_type) with
   | Some _ => ∃ self, ISICDataset_init fs dataset_type tr = Done self
   | None =>
       ISICDataset_init fs dataset_type tr
       = Failed (FileNotFoundError ("../../Data/" +:+ dataset_type))
   end).
Proof.
  unfold ISICDataset_init, os_listdir.
  destruct (bool_decide_reflect (dataset_type ∈ dataset_types)) as [Hin | Hin].
  - rewrite (os_path_join_Data _ Hin). split.
    + split; [| done].
      by destruct (directories fs !! _).
    + intros _. destruct (directories fs !! _); [by eexists | done].
  - by split.
Qed.

Lemma ISICDataset_init_failure_witness :
  (ISICDataset_init example_fs "train" None = Failed (Builtin AssertionError)
   ↔ "train" ∉ dataset_types) ∧
  ("train" ∈ dataset_types →
   match directories example_fs !! ("../../Data/" +:+ "train") with
   | Some _ => ∃ self, ISICDataset_init example_fs "train" None = Done self
   | None =>
       ISICDataset_init example_fs "train" None
       = Failed (FileNotFoundError ("../../Data/" +:+ "train"))
   end).
Proof. apply (ISICDataset_init_failure example_fs "train" None). Defined.

(** X4. In a dataset that [ISICDataset.__init__] has built, the mask name at
    the index of an image name [stem.jpg], with no dot in [stem], is
    [stem_superpixels.png]. *)
Theorem ISICDataset_mask_name (fs : filesystem) (dataset_type : string)
    (tr : option Compose) (self : ISICDataset) (i : nat) (stem : string) :
  ISICDataset_init fs dataset_type tr = Done self →
  image_list self !! i = Some (stem +:+ ".jpg") →
  "."%char ∉ String.list_ascii_of_string stem →
  mask_list self !! i = Some (stem +:+ "_superpixels.png").
Proof.
  intros (names & _ & _ & ->)%ISICDataset_init_Done Himage Hdot.
  simpl in *. rewrite list_lookup_fmap, Himage. simpl. f_equal.
  pose proof (replace_from_extension "_superpixels.png" stem "" Hdot) as Hrep.
  change (".jpg" +:+ "") with ".jpg" in Hrep.
  change (replace_from ".jpg" "_superpixels.png" 0 "") with "" in Hrep.
  by rewrite app_empty_r in Hrep.
Qed.

Lemma ISICDataset_mask_name_witness :
  mask_list (example_dataset None) !! 1%nat
  = Some ("b" +:+ "_superpixels.png").
Proof.
  apply (ISICDataset_mask_name example_fs "training" None
           (example_dataset None) 1 "b").
  - reflexivity.
  - reflexivity.
  - by_evaluation.
Defined.

(** ** Items of the dataset *)

Lemma list_getitem_nat {A} (l : list A) (i : nat) (x : A) :
  l !! i = Some x → list_getitem l (Z.of_nat i) = Done x.
Proof.
  intros Hx. unfold list_getitem. cbv zeta.
  rewrite (decide_False (P := (Z.of_nat i < 0)%Z)) by lia.
  rewrite decide_True by lia.
  by rewrite Nat2Z.id, Hx.
Qed.

Lemma list_getitem_out_of_range {A} (l : list A) (idx : Z) :
  (Z.of_nat (length l) ≤ idx ∨ idx < - Z.of_nat (length l))%Z →
  list_getitem l idx = Failed (Builtin IndexError).
Proof.
  intros Hidx. unfold list_getitem. cbv zeta.
  destruct (decide (idx < 0)%Z).
  - by rewrite decide_False by lia.
  - rewrite decide_True by lia.
    by rewrite lookup_ge_None_2 by lia.
Qed.

Lemma list_getitem_negative {A} (l : list A) (idx : Z) :
  (- Z.of_nat (length l) ≤ idx < 0)%Z →
  list_getitem l idx = list_getitem l (Z.of_nat (length l) + idx).
Proof.
  intros Hidx. unfold list_getitem. cbv zeta.
  rewrite (decide_True (P := (idx < 0)%Z)) by lia.
  by rewrite (decide_False (P := (_ + _ < 0)%Z)) by lia.
Qed.

Section items.
Variable fsqrt : Qc → Qc.
Variable resize_bilinear : nat → nat → pil_image → pil_image.
Variable luma : byte * byte * byte → byte.

(** X5. [ISICDataset.__getitem__] with an index at or beyond the length, or
    below minus the length, fails with [IndexError] before any file is
    opened, whatever the file system holds. *)
Theorem ISICDataset_getitem_IndexError (fs : filesystem) (self : ISICDataset)
    (idx : Z) :
  (Z.of_nat (ISICDataset_len self) ≤ idx
   ∨ idx < - Z.of_nat (ISICDataset_len self))%Z →
  ISICDataset_getitem fsqrt resize_bilinear luma fs self idx
  = Failed (Builtin IndexError).
Proof.
  intros Hidx. unfold ISICDataset_getitem.
  by rewrite (list_getitem_out_of_range (image_list self)) by exact Hidx.
Qed.

(** X6. A negative index counts from the end: in a dataset that
    [ISICDataset.__init__] has built, the item at [idx], for
    [-len <= idx < 0], is the item at [len + idx]. *)
Theorem ISICDataset_getitem_negative (fs : filesystem) (dataset_type : string)
    (tr : option Compose) (self : ISICDataset) (idx : Z) :
  ISICDataset_init fs dataset_type tr = Done self →
  (- Z.of_nat (ISICDataset_len self) ≤ idx < 0)%Z →
  ISICDataset_getitem fsqrt resize_bilinear luma fs self idx
  = ISICDataset_getitem fsqrt resize_bilinear luma fs self
      (Z.of_nat (ISICDataset_len self) + idx).
Proof.
  intros (names & _ & _ & ->)%ISICDataset_init_Done.
  unfold ISICDataset_getitem, ISICDataset_len. simpl. intros Hidx.
  rewrite (list_getitem_negative (merge_sort _ _)) by done.
  rewrite (list_getitem_negative (_ <$> _)) by (by rewrite length_fmap).
  by rewrite length_fmap.
Qed.

(** X7. Without a transform, the item at the index of an image name whose
    file exists is the pair of that image, in mode RGB, and of the picture
    in the file named by replacing [.jpg] by [_superpixels.png], in mode L;
    when that file is absent the access fails with [FileNotFoundError] for
    it, although the image counts in the length of the dataset. *)
Theorem ISICDataset_getitem_raw (fs : filesystem) (dataset_type : string)
    (self : ISICDataset) (i : nat) (f : string) (im : pil_image) :
  ISICDataset_init fs dataset_type None = Done self →
  image_list self !! i = Some f →
  images fs !! os_path_join (root_dir self) f = Some im →
  let mask_name :=
    os_path_join (root_dir self) (str_replace f ".jpg" "_superpixels.png") in
  (i < ISICDataset_len self)%nat ∧
  match images fs !! mask_name with
  | Some mk =>
      ISICDataset_getitem fsqrt resize_bilinear luma fs self (Z.of_nat i)
      = Done (RawItem {| image := RGB (convert_RGB im);
                         mask := L (convert_L luma mk) |})
  | None =>
      ISICDataset_getitem fsqrt resize_bilinear luma fs self (Z.of_nat i)
      = Failed (FileNotFoundError mask_name)
  end.
Proof.
  intros (names & _ & _ & ->)%ISICDataset_init_Done.
  cbn [image_list mask_list root_dir transform]. intros Himage Hfile.
  split; [by eapply lookup_lt_Some |].
  unfold ISICDataset_getitem, Image_open.
  cbn [image_list mask_list root_dir transform].
  rewrite (list_getitem_nat _ i f Himage).
  rewrite (list_getitem_nat _ i (str_replace f ".jpg" "_superpixels.png"))
    by (by rewrite list_lookup_fmap, Himage).
  cbn [mbind io_result_bind]. rewrite Hfile. cbn [mbind io_result_bind].
  destruct (images fs !! os_path_join _ (str_replace _ _ _)); reflexivity.
Qed.


End items.

Lemma ISICDataset_getitem_raw_witness :
  (1 < ISICDataset_len (example_dataset None))%nat ∧
  match images example_fs
        !! os_path_join (root_dir (example_dataset None))
             (str_replace "b.jpg" ".jpg" "_superpixels.png") with
  | Some mk =>
      ISICDataset_getitem sqrt_on_squares pil_resize_nearest red_band
        example_fs (example_dataset None) (Z.of_nat 1)
      = Done (RawItem {| image := RGB (convert_RGB (RGB lesion_image));
                         mask := L (convert_L red_band mk) |})
  | None =>
      ISICDataset_getitem sqrt_on_squares pil_resize_nearest red_band
        example_fs (example_dataset None) (Z.of_nat 1)
      = Failed (FileNotFoundError
                  (os_path_join (root_dir (example_dataset None))
                     (str_replace "b.jpg" ".jpg" "_superpixels.png")))
  end.
Proof.
  apply (ISICDataset_getitem_raw sqrt_on_squares pil_resize_nearest red_band
           example_fs "training" (example_dataset None) 1 "b.jpg"
           (RGB lesion_image)).
  - reflexivity.
  - reflexivity.
  - reflexivity.
Defined.


Lemma ISICDataset_getitem_IndexError_witness :
  ISICDataset_getitem sqrt_on_squares pil_resize_nearest red_band example_fs
    (example_dataset None) 2
  = Failed (Builtin IndexError).
Proof.
  apply (ISICDataset_getitem_IndexError sqrt_on_squares pil_resize_nearest
           red_band example_fs (example_dataset None) 2).
  left. reflexivity.
Defined.

Lemma ISICDataset_getitem_negative_witness :
  ISICDataset_getitem sqrt_on_squares pil_resize_nearest red_band example_fs
    (example_dataset None) (-2)
  = ISICDataset_getitem sqrt_on_squares pil_resize_nearest red_band example_fs
      (example_dataset None)
      (Z.of_nat (ISICDataset_len (example_dataset None)) + -2).
Proof.
  apply (ISICDataset_getitem_negative sqrt_on_squares pil_resize_nearest
           red_band example_fs "training" None (example_dataset None) (-2)).
  - reflexivity.
  - split; [discriminate | reflexivity].
Defined.

(** ** Rescale: sizes *)

Lemma pil_resize_nearest_wf (w h : nat) (p : pil_image) :
  pil_wf p → (0 < w)%nat → (0 < h)%nat →
  pil_wf (pil_resize_nearest w h p) ∧
  pil_size (pil_resize_nearest w h p) = (w, h) ∧
  is_greyscale (pil_resize_nearest w h p) = is_greyscale p.
Proof.
  intros Hwf Hw Hh.
  destruct p as [im | im]; simpl in *;
    destruct (resize_nearest_wf w h im Hwf Hw Hh) as (? & _); done.
Qed.

Lemma nearest_index_same (n k : nat) :
  (0 < n)%nat → nearest_index n n k = k.
Proof.
  intros Hn. unfold nearest_index.
  symmetry. apply (Nat.div_unique _ _ _ n); lia.
Qed.

Lemma omap_lookup_seq {A} (l : list A) (k w : nat) :
  (k + w ≤ length l)%nat →
  omap (λ j, l !! (k + j)%nat) (seq 0 w) = take w (drop k l).
Proof.
  revert k. induction w as [| w IH]; intros k Hlen; [done |].
  destruct (lookup_lt_is_Some_2 l k) as [x Hx]; [lia |].
  rewrite (drop_S l x k Hx). cbn [seq take]. csimpl.
  rewrite Nat.add_0_r, Hx. f_equal.
  rewrite <- (IH (S k)) by lia. apply list_omap_ext.
  rewrite <- fmap_S_seq. apply Forall2_fmap_l, Forall_Forall2_diag, Forall_true.
  intros j. f_equal. lia.
Qed.

Lemma rows_join {A} (l : list A) (w h : nat) :
  (h * w ≤ length l)%nat →
  (i ← seq 0 h; take w (drop (i * w) l)) = take (h * w) l.
Proof.
  induction h as [| h IH]; intros Hlen; [done |].
  rewrite seq_S, bind_app, IH by lia. cbn [seq]. csimpl.
  rewrite app_nil_r, take_take_drop. f_equal. lia.
Qed.

(** Resizing to the size an image has returns the image. *)
Lemma resize_nearest_same_size {A} (im : img A) :
  img_wf im → resize_nearest (width im) (height im) im = im.
Proof.
  intros (Hw & Hh & Hlen). destruct im as [w h l]; simpl in *.
  unfold resize_nearest; simpl. f_equal.
  trans (take (h * w) l); [| by rewrite take_ge by lia].
  rewrite <- rows_join by lia.
  apply Forall_bind_ext, Forall_forall. intros i Hi%elem_of_seq.
  rewrite <- omap_lookup_seq by nia.
  apply list_omap_ext, Forall_Forall2_diag, Forall_forall.
  intros j Hj%elem_of_seq. by rewrite !nearest_index_same.
Qed.

Section rescale_sizes.
Variable resize_bilinear : nat → nat → pil_image → pil_image.


(** X10. The mask that [Rescale.__call__] returns for a well-formed mask is
    a well-formed image of the mode of the mask and of exactly the size
    asked for, whatever the size of the mask. *)
Theorem Rescale_call_mask_size (self : Rescale) (s s' : Sample pil_image) :
  Rescale_call resize_bilinear self s = Ok s' → pil_wf (mask s) →
  ∃ w h, output_size self = SizePair w h ∧ (0 < w)%Z ∧ (0 < h)%Z ∧
         pil_wf (mask s') ∧ pil_size (mask s') = (Z.to_nat w, Z.to_nat h) ∧
         is_greyscale (mask s') = is_greyscale (mask s).
Proof.
  unfold Rescale_call, Image_resize. intros Hcall Hwf.
  destruct (output_size self) as [| w h |]; [done | | done].
  destruct (decide (0 < w ∧ 0 < h)%Z) as [[Hw Hh] |]; [| done].
  injection Hcall as <-. exists w, h. cbn [mask].
  repeat (split; [done |]). apply pil_resize_nearest_wf; [done | lia..].
Qed.

(** X11. A well-formed mask that already has the size asked for is returned
    as it is. *)
Theorem Rescale_call_same_size (self : Rescale) (s s' : Sample pil_image)
    (w h : nat) :
  Rescale_call resize_bilinear self s = Ok s' → pil_wf (mask s) →
  pil_size (mask s) = (w, h) →
  output_size self = SizePair (Z.of_nat w) (Z.of_nat h) →
  mask s' = mask s.
Proof.
  unfold Rescale_call, Image_resize. intros Hcall Hwf Hsize Hout.
  rewrite Hout in Hcall.
  destruct (decide (0 < Z.of_nat w ∧ 0 < Z.of_nat h)%Z); [| done].
  injection Hcall as <-. cbn [mask]. rewrite !Nat2Z.id.
  destruct (mask s) as [im | im]; simpl in *; injection Hsize as <- <-;
    by rewrite resize_nearest_same_size.
Qed.
End rescale_sizes.

Lemma lesion_mask_wf : pil_wf (L lesion_mask).
Proof. repeat split; simpl; lia. Qed.



Lemma Rescale_call_mask_size_witness :
  ∃ w h, SizePair 3 5 = SizePair w h ∧ (0 < w)%Z ∧ (0 < h)%Z ∧
         pil_wf (pil_resize_nearest 3 5 (L lesion_mask)) ∧
         pil_size (pil_resize_nearest 3 5 (L lesion_mask))
         = (Z.to_nat w, Z.to_nat h) ∧
         is_greyscale (pil_resize_nearest 3 5 (L lesion_mask))
         = is_greyscale (L lesion_mask).
Proof.
  apply (Rescale_call_mask_size pil_resize_nearest
           {| output_size := SizePair 3 5 |} lesion_sample
           {| image := pil_resize_nearest 3 5 (RGB lesion_image);
              mask := pil_resize_nearest 3 5 (L lesion_mask) |}).
  - reflexivity.
  - exact lesion_mask_wf.
Defined.

Lemma Rescale_call_same_size_witness :
  pil_resize_nearest 2 2 (L lesion_mask) = L lesion_mask.
Proof.
  apply (Rescale_call_same_size pil_resize_nearest
           {| output_size := SizePair 2 2 |} lesion_sample
           {| image := pil_resize_nearest 2 2 (RGB lesion_image);
              mask := pil_resize_nearest 2 2 (L lesion_mask) |}
           2 2).
  - reflexivity.
  - exact lesion_mask_wf.
  - reflexivity.
  - reflexivity.
Defined.

(** ** ToTensor: well-formed tensors *)

Lemma numel_squeeze (sh : list nat) :
  numel (filter (λ d, d ≠ 1%nat) sh) = numel sh.
Proof.
  induction sh as [| d sh IH]; [done |]. rewrite filter_cons.
  destruct (decide (d ≠ 1%nat)) as [| Hd]; simpl; [by rewrite IH |].
  apply dec_stable in Hd as ->. rewrite IH. lia.
Qed.

Lemma to_tensor_wf (p : pil_image) :
  pil_wf p →
  tensor_wf (to_tensor p) ∧ Forall (in_range 0 1) (data (to_tensor p)).
Proof.
  destruct p as [im | im]; intros (_ & _ & Hlen); unfold tensor_wf; simpl.
  - split.
    + rewrite !length_app, !length_fmap, Hlen. lia.
    + rewrite !Forall_app, !Forall_fmap.
      repeat split; apply Forall_true; intros px; apply byte_to_float_in_range.
  - split.
    + rewrite length_fmap, Hlen. lia.
    + rewrite Forall_fmap. apply Forall_true. intros px.
      apply byte_to_float_in_range.
Qed.

(** X12. On well-formed PIL images of either mode, [ToTensor.__call__]
    returns two tensors that hold as many elements as their shapes say, all
    of them in [[0, 1]], the elements of the mask included. *)
Theorem ToTensor_call_wf (s : Sample pil_image) :
  pil_wf (image s) → pil_wf (mask s) →
  ∃ s', ToTensor_call s = Ok s' ∧
        tensor_wf (image s') ∧ tensor_wf (mask s') ∧
        Forall (in_range 0 1) (data (image s')) ∧
        Forall (in_range 0 1) (data (mask s')).
Proof.
  intros [Hwi Hri]%to_tensor_wf [Hwm Hrm]%to_tensor_wf.
  eexists. split; [done |]. cbn [image mask].
  repeat split; try done.
  unfold tensor_wf, squeeze in *. cbn [shape data].
  by rewrite numel_squeeze.
Qed.

Lemma ToTensor_call_wf_witness :
  ∃ s', ToTensor_call lesion_sample = Ok s' ∧
        tensor_wf (image s') ∧ tensor_wf (mask s') ∧
        Forall (in_range 0 1) (data (image s')) ∧
        Forall (in_range 0 1) (data (mask s')).
Proof.
  apply (ToTensor_call_wf lesion_sample).
  - repeat split; simpl; lia.
  - exact lesion_mask_wf.
Defined.

Section geometry.
Variable fsqrt : Qc → Qc.
Variable resize_bilinear : nat → nat → pil_image → pil_image.

(** X13. [Rescale] does not compare the size of the image with the size of
    the mask: with a target of more than one pixel a side, [Rescale] then
    [ToTensor] turn any image and any greyscale mask, of equal sizes or not,
    into an image tensor of shape [(c, h, w)] and a mask tensor of shape
    [(h, w)] (provided the bilinear resampling yields the size it is asked
    for). *)
Theorem Rescale_ToTensor_shapes (self : Rescale) (s : Sample pil_image)
    (w h : Z) :
  output_size self = SizePair w h → (1 < w)%Z → (1 < h)%Z →
  (∀ w h q, pil_size (resize_bilinear w h q) = (w, h)) →
  is_greyscale (mask s) = true →
  ∃ s1 s2 c,
    Rescale_call resize_bilinear self s = Ok s1 ∧ ToTensor_call s1 = Ok s2 ∧
    c ≠ 0%nat ∧
    shape (image s2) = [c; Z.to_nat h; Z.to_nat w] ∧
    shape (mask s2) = [Z.to_nat h; Z.to_nat w].
Proof.
  intros Hout Hw Hh Hsize Hgrey. destruct self as [size]. simpl in Hout.
  subst size. rewrite Rescale_call_pair by lia.
  destruct (to_tensor_shape
              (resize_bilinear (Z.to_nat w) (Z.to_nat h) (image s))
              (Z.to_nat w) (Z.to_nat h) (Hsize _ _ _)) as (c & Hc & Hshape).
  eexists _, _, c. split; [done |]. split; [done |]. cbn [image mask].
  split; [done |]. split; [done |].
  destruct (mask s) as [mk | mk]; [done |]. cbn [pil_resize_nearest].
  apply squeeze_mask_shape; lia.
Qed.

(** X14. A mask whose height and width are not those of the image makes
    [Normalise.__call__] fail on line 13 with [IndexError], and so does an
    image without a channel. *)
Theorem Normalise_call_IndexError (s : tensor_sample) (C H W H' W' : nat) :
  shape (image s) = [C; H; W] → shape (mask s) = [H'; W'] →
  C = 0%nat ∨ (H', W') ≠ (H, W) →
  Normalise_call fsqrt s = Raise IndexError.
Proof.
  intros Hi Hm Hbad. unfold Normalise_call, Normalise_locals.
  assert (getitem_0_positive (image s) (mask s) = Raise IndexError) as ->;
    [| done].
  unfold getitem_0_positive. rewrite Hi, Hm. cbn [length take].
  destruct (decide (C = 0%nat)); [done |].
  rewrite decide_False; [done |].
  intros [= -> ->]. by destruct Hbad.
Qed.
End geometry.

Lemma Rescale_ToTensor_shapes_witness :
  ∃ s1 s2 c,
    Rescale_call pil_resize_nearest {| output_size := SizePair 3 5 |}
      {| image := RGB lesion_image;
         mask := L (Img 1 1 ["007"%byte]) |} = Ok s1 ∧
    ToTensor_call s1 = Ok s2 ∧ c ≠ 0%nat ∧
    shape (image s2) = [c; Z.to_nat 5; Z.to_nat 3] ∧
    shape (mask s2) = [Z.to_nat 5; Z.to_nat 3].
Proof.
  apply (Rescale_ToTensor_shapes pil_resize_nearest
           {| output_size := SizePair 3 5 |}
           {| image := RGB lesion_image; mask := L (Img 1 1 ["007"%byte]) |}
           3 5).
  - reflexivity.
  - reflexivity.
  - reflexivity.
  - exact pil_resize_nearest_size.
  - reflexivity.
Defined.

Lemma Normalise_call_IndexError_witness :
  Normalise_call sqrt_on_squares
    {| image := image two_channel_sample;
       mask := Tensor [2; 1]%nat [Fin 1; Fin 0] |}
  = Raise IndexError.
Proof.
  apply (Normalise_call_IndexError sqrt_on_squares
           {| image := image two_channel_sample;
              mask := Tensor [2; 1]%nat [Fin 1; Fin 0] |} 2 1 2 2 1).
  - reflexivity.
  - reflexivity.
  - right. discriminate.
Defined.

(** ** ClipAndRescale on the store: the inputs *)

(** X18. [ClipAndRescale.__call__] leaves the tensors it is given as they
    are: the write of line 44 goes to a tensor that did not exist before
    the call, which is the image returned; the mask returned is the very
    object given. *)
Theorem ClipAndRescale_call_st_keeps_inputs (self : ClipAndRescale)
    (s : Sample nat) (σ : store) :
  valid_tensor σ s →
  let run := ClipAndRescale_call_st self s σ in
  tensor_contents run.1 s = tensor_contents σ s ∧
  extends σ run.1 ∧
  ∀ refs, run.2 = Ok refs →
          mask refs = mask s ∧ image refs = length (tensor_objects σ) ∧
          image refs ≠ image s ∧ image refs ≠ mask s.
Proof.
  intros Hvalid run.
  destruct (ClipAndRescale_call_st_spec self s σ Hvalid) as [Hext Hrun].
  fold run in Hext, Hrun.
  split; [by apply extends_tensor_contents |]. split; [done |].
  intros refs Hrefs. rewrite Hrefs in Hrun. destruct Hvalid as [Hi Hm].
  destruct (ClipAndRescale_call self (tensor_contents σ s)); [| done].
  destruct Hrun as (refs' & [= <-] & _ & Hmask & Himage).
  repeat split; [done | done | lia | lia].
Qed.

Lemma ClipAndRescale_call_st_keeps_inputs_witness :
  let s := {| image := 0%nat; mask := 1%nat |} in
  let run := ClipAndRescale_call_st default_stage s lesion_store in
  tensor_contents run.1 s = tensor_contents lesion_store s ∧
  extends lesion_store run.1 ∧
  ∀ refs, run.2 = Ok refs →
          mask refs = mask s ∧
          image refs = length (tensor_objects lesion_store) ∧
          image refs ≠ image s ∧ image refs ≠ mask s.
Proof.
  apply (ClipAndRescale_call_st_keeps_inputs default_stage
           {| image := 0%nat; mask := 1%nat |} lesion_store).
  split; simpl; lia.
Defined.

(** ** ClipAndRescale: shapes *)

Lemma length_chunks (n k : nat) (l : list num) : length (chunks n k l) = n.
Proof.
  revert l. induction n as [| n IH]; intros l; simpl; [done |]. by rewrite IH.
Qed.

Lemma length_join_const {A} (ls : list (list A)) (n : nat) :
  Forall (λ l, length l = n) ls → length (mjoin ls) = (length ls * n)%nat.
Proof.
  induction 1 as [| l ls Hl _ IH]; [done |].
  change (mjoin (l :: ls)) with (l ++ mjoin ls).
  rewrite length_app, Hl, IH. simpl. lia.
Qed.

Lemma numel_ones (k : nat) (sh : list nat) :
  numel (replicate k 1%nat ++ sh) = numel sh.
Proof. induction k as [| k IH]; simpl; [done |]. rewrite IH. lia. Qed.

(** Broadcasting yields as many elements as the target shape says. *)
Lemma expand_data_length (ss ts : list nat) (d d' : list num) :
  expand_data ss ts d = Some d' → length d = numel ss →
  length d' = numel ts.
Proof.
  revert ts d d'. induction ss as [| s ss IH]; intros [| t ts] d d' Hexp Hlen;
    try done.
  - by injection Hexp as <-.
  - rewrite expand_data_cons in Hexp. simpl in Hlen.
    destruct (decide (s = t)) as [<- | Hst].
    + destruct (mapM _ _) as [rs |] eqn:Hrs; [| done].
      injection Hexp as <-. apply mapM_Some in Hrs.
      rewrite (length_join_const rs (numel ts)).
      * apply Forall2_length in Hrs. rewrite <- Hrs, length_chunks. done.
      * pose proof (chunks_Forall_length s (numel ss) d Hlen) as Hchunks.
        clear Hlen. induction Hrs as [| c r cs rs Hcr _ IHrs];
          [done |].
        apply Forall_cons in Hchunks as [Hc Hcs].
        constructor; [by eapply IH | by apply IHrs].
    + destruct (decide (s = 1%nat)) as [-> | ]; [| done].
      destruct (expand_data ss ts d) as [r |] eqn:Hr; [| done].
      injection Hexp as <-.
      rewrite (length_join_const _ (numel ts)).
      * by rewrite length_replicate.
      * apply Forall_replicate. eapply IH; [done |]. lia.
Qed.

(** X15. Whenever [ClipAndRescale.__call__] returns, on tensors that hold as
    many elements as their shapes say and for any shape of the mask that
    broadcasts, the mask returned is the mask given and the image returned
    has the shape and the number of elements of the image given. *)
Theorem ClipAndRescale_call_wf (self : ClipAndRescale) (s s' : tensor_sample) :
  ClipAndRescale_call self s = Ok s' →
  tensor_wf (image s) → tensor_wf (mask s) →
  mask s' = mask s ∧ shape (image s') = shape (image s) ∧
  tensor_wf (image s') ∧
  length (data (image s')) = length (data (image s)).
Proof.
  unfold ClipAndRescale_call, expand_as, tensor_wf. intros Hcall Hwi Hwm.
  destruct (decide _) as [Hrank |]; [| done].
  destruct (expand_data _ _ _) as [expanded |] eqn:Hexp; [| done].
  injection Hcall as <-. cbn [image mask shape data] in *.
  apply expand_data_length in Hexp;
    [| by cbn [unsqueeze0 shape data];
          rewrite numel_ones; simpl; rewrite <- Hwm; lia].
  cbn [assign_zero_where_zero ClipAndRescale_rescaled torch_clamp tensor_map
       shape data] in *.
  assert (length (zip_with zero_where
                    (rescale self
                       <$> (clamp (clip_range self).1 (clip_range self).2
                              <$> data (image s)))
                    expanded)
          = length (data (image s))) as Hlen.
  { rewrite length_zip_with, !length_fmap. lia. }
  repeat split; [by rewrite Hlen | done].
Qed.

Lemma ClipAndRescale_call_wf_witness :
  mask two_channel_result = mask two_channel_sample ∧
  shape (image two_channel_result) = shape (image two_channel_sample) ∧
  tensor_wf (image two_channel_result) ∧
  length (data (image two_channel_result))
  = length (data (image two_channel_sample)).
Proof.
  apply (ClipAndRescale_call_wf default_stage two_channel_sample
           two_channel_result).
  - exact two_channel_call.
  - reflexivity.
  - reflexivity.
Defined.

Lemma mapM_cons_None {A B} (f : A → option B) (x : A) (l : list A) :
  f x = None → mapM f (x :: l) = None.
Proof. intros Hx. csimpl. by rewrite Hx. Qed.

(** X16. [ClipAndRescale.__call__] raises [RuntimeError] when the mask has
    as many dimensions as the image or more (a mask that kept its channel
    dimension), and when the mask of an image of shape [(C, H, W)],
    [H > 0], has a height that is neither [H] nor 1 or a width that is
    neither [W] nor 1. *)
Theorem ClipAndRescale_call_RuntimeError (self : ClipAndRescale)
    (s : tensor_sample) (C H W H' W' : nat) :
  (length (shape (image s)) ≤ length (shape (mask s)))%nat ∨
  (shape (image s) = [C; H; W] ∧ shape (mask s) = [H'; W'] ∧ (0 < H)%nat ∧
   ((H' ≠ H ∧ H' ≠ 1%nat) ∨ (W' ≠ W ∧ W' ≠ 1%nat))) →
  ClipAndRescale_call self s = Raise RuntimeError.
Proof.
  unfold ClipAndRescale_call, expand_as.
  cbn [ClipAndRescale_rescaled torch_clamp tensor_map unsqueeze0 shape data
       length].
  intros [Hrank | (Hi & Hm & HH & Hbad)].
  - by rewrite decide_False by lia.
  - rewrite Hi, Hm. cbn [length]. rewrite decide_True by lia.
    replace (3 - 3)%nat with 0%nat by lia. cbn [replicate app].
    assert (∀ d, expand_data [W'] [W] d = None ∨ ¬ (W' ≠ W ∧ W' ≠ 1%nat))
      as Hwidth.
    { intros d. rewrite expand_data_cons.
      destruct (decide (W' = W)); [right; tauto |].
      destruct (decide (W' = 1%nat)); [right; tauto | by left]. }
    assert (∀ d, expand_data [H'; W'] [H; W] d = None) as Hinner.
    { intros d. rewrite expand_data_cons.
      destruct (decide (H' = H)) as [-> | HneH].
      - destruct Hbad as [[? _] | Hw]; [done |].
        destruct H as [| H]; [lia |]. cbn [chunks].
        destruct (Hwidth (take (numel [W']) d)) as [Hnone | ?]; [| done].
        by rewrite (mapM_cons_None _ _ _ Hnone).
      - destruct (decide (H' = 1%nat)) as [-> | Hne1].
        + destruct Hbad as [[_ ?] | Hw]; [done |].
          destruct (Hwidth d) as [-> | ?]; done.
        + done. }
    rewrite expand_data_cons.
    destruct (decide (1 = C)%nat) as [<- | HC].
    + cbn [chunks]. by rewrite (mapM_cons_None _ _ _ (Hinner _)).
    + rewrite decide_True by done. by rewrite Hinner.
Qed.

Lemma ClipAndRescale_call_RuntimeError_witness :
  ClipAndRescale_call default_stage
    {| image := image two_channel_sample;
       mask := Tensor [1; 1; 2]%nat [Fin 1; Fin 0] |}
  = Raise RuntimeError.
Proof.
  apply (ClipAndRescale_call_RuntimeError default_stage
           {| image := image two_channel_sample;
              mask := Tensor [1; 1; 2]%nat [Fin 1; Fin 0] |} 0 0 0 0 0).
  left. simpl. lia.
Defined.

(** ** ClipAndRescale: order *)

Lemma clamp_monotone (a b : Qc) (x y : num) (qx qy : Qc) :
  a ≤ b → num_leb x y = true →
  clamp (Fin a) (Fin b) x = Fin qx → clamp (Fin a) (Fin b) y = Fin qy →
  qx ≤ qy.
Proof.
  intros Hab Hxy Hx Hy.
  assert (x ≠ NaN ∧ y ≠ NaN) as [Hxn Hyn] by (by destruct x, y).
  destruct (clamp_finite a b x Hab Hxn) as (qx' & Hx' & Hax & Hxb).
  destruct (clamp_finite a b y Hab Hyn) as (qy' & Hy' & Hay & Hyb).
  rewrite Hx in Hx'. rewrite Hy in Hy'.
  injection Hx' as <-. injection Hy' as <-.
  destruct x as [u | | |], y as [v | | |]; simpl in Hxy; try done;
    cbn [clamp num_ltb] in Hx, Hy;
    try (injection Hy as <-; exact Hxb);
    try (rewrite bool_decide_eq_false_2 in Hx by (by apply Qcle_not_lt);
         injection Hx as <-; exact Hay).
  apply bool_decide_eq_true_1 in Hxy.
  destruct (bool_decide_reflect (u < a)) as [Hua | Hua].
  - rewrite bool_decide_eq_false_2 in Hx by (by apply Qcle_not_lt).
    by injection Hx as <-.
  - apply Qcnot_lt_le in Hua.
    rewrite (bool_decide_eq_false_2 (v < a)) in Hy
      by (apply Qcle_not_lt; by trans u).
    destruct (bool_decide_reflect (b < u)) as [Hbu | Hbu].
    + rewrite bool_decide_eq_true_2 in Hy
        by (by apply Qclt_le_trans with u).
      injection Hx as <-. by injection Hy as <-.
    + injection Hx as <-.
      destruct (bool_decide_reflect (b < v)) as [Hbv | Hbv];
        by injection Hy as <-.
Qed.

Lemma affine_monotone (a b lo hi q1 q2 : Qc) :
  a < b → lo ≤ hi → q1 ≤ q2 → affine a b lo hi q1 ≤ affine a b lo hi q2.
Proof.
  intros Hab Hlohi Hq.
  apply (Qcplus_le_mono_r _ _ (- affine a b lo hi q1)).
  rewrite Qcplus_opp_r.
  change (0 ≤ affine a b lo hi q2 - affine a b lo hi q1).
  rewrite affine_linear.
  apply Qcmult_nonneg_nonneg; [by apply Qc_sub_nonneg |].
  unfold Qcdiv. apply Qcmult_nonneg_nonneg; [by apply Qc_sub_nonneg |].
  by apply Qclt_le_weak, Qcinv_pos, Qc_sub_pos.
Qed.

(** X17. With finite ranges [a < b] and [lo <= hi], clipping and rescaling
    keep the order of the values: of two elements, neither of them [nan],
    the smaller one never gets the greater result. *)
Theorem rescale_clamp_monotone (a b lo hi : Qc) (x y : num) :
  a < b → lo ≤ hi → num_leb x y = true →
  num_leb (rescale (finite_stage a b lo hi) (clamp (Fin a) (Fin b) x))
          (rescale (finite_stage a b lo hi) (clamp (Fin a) (Fin b) y))
  = true.
Proof.
  intros Hab Hlohi Hxy.
  pose proof (Qclt_le_weak _ _ Hab) as Hle.
  assert (x ≠ NaN ∧ y ≠ NaN) as [Hxn Hyn] by (by destruct x, y).
  destruct (clamp_finite a b x Hle Hxn) as (qx & Hx & _).
  destruct (clamp_finite a b y Hle Hyn) as (qy & Hy & _).
  pose proof (clamp_monotone a b x y qx qy Hle Hxy Hx Hy) as Hq.
  rewrite Hx, Hy, !rescale_finite by (by apply Qclt_not_eq).
  simpl. apply bool_decide_eq_true_2. by apply affine_monotone.
Qed.

Lemma rescale_clamp_monotone_witness :
  num_leb
    (rescale (finite_stage (Qc_of_Z (-5)) (Qc_of_Z 5) 0 1)
       (clamp (Fin (Qc_of_Z (-5))) (Fin (Qc_of_Z 5)) (num_of_Z 3)))
    (rescale (finite_stage (Qc_of_Z (-5)) (Qc_of_Z 5) 0 1)
       (clamp (Fin (Qc_of_Z (-5))) (Fin (Qc_of_Z 5)) PInf))
  = true.
Proof.
  apply (rescale_clamp_monotone (Qc_of_Z (-5)) (Qc_of_Z 5) 0 1
           (num_of_Z 3) PInf).
  - reflexivity.
  - discriminate.
  - reflexivity.
Defined.
